(** * Drive catalog front-end: data synchronisation and edit session

    A shallow embedding of the [DriveCatalog] React component: the
    asynchronous handlers [fetchData], [handleRefresh], [startEditing],
    [cancelEditing] and [saveFileChanges], the debounced search effect, and
    the JavaScript string operations they use ([split], [trim], [join],
    [filter(Boolean)]).

    - JavaScript strings are sequences of UTF-16 code units ([list N]).
    - An [async] function is a tree of effects ([Async]): state-setter
      calls, [console.error] calls, and [await fetch(...)] nodes whose
      continuation receives what the network answers; [try]/[catch] is an
      operation on such trees.
    - A handler is a closure of the render that created it: the values it
      reads ([searchTerm], [editForm]) are those of that render, while the
      setters act on the state current when they are called. *)

From Stdlib Require Import List NArith Ascii String Bool Arith Lia.
Import ListNotations.

Set Implicit Arguments.

(** ** JavaScript strings *)

Module JS.

(** A string value: its UTF-16 code units. *)
Definition jsstring := list N.

(** An ASCII literal of the source as a JavaScript string. *)
Definition lit (s : string) : jsstring :=
  map N_of_ascii (list_ascii_of_string s).

Definition comma : N := 44.
Definition space : N := 32.

(** [WhiteSpace] and [LineTerminator] of ECMAScript, the code units that
    [String.prototype.trim] strips: TAB, LF, VT, FF, CR, SP, NBSP, the
    Unicode space separators (category Zs), LS, PS and ZWNBSP. *)
Definition is_white_space (c : N) : bool :=
  ((9 <=? c) && (c <=? 13)
   || (c =? 32) || (c =? 160) || (c =? 5760)
   || (8192 <=? c) && (c <=? 8202)
   || (c =? 8232) || (c =? 8233) || (c =? 8239) || (c =? 8287)
   || (c =? 12288) || (c =? 65279))%N.

Fixpoint trimStart (s : jsstring) : jsstring :=
  match s with
  | c :: s' => if is_white_space c then trimStart s' else s
  | [] => []
  end.

Definition trimEnd (s : jsstring) : jsstring := rev (trimStart (rev s)).

(** [s.trim()] *)
Definition trim (s : jsstring) : jsstring := trimEnd (trimStart s).

(** The pieces of [s] around each occurrence of the code unit [sep]: the
    first piece, and the pieces after it. *)
Fixpoint split_on (sep : N) (s : jsstring) : jsstring * list jsstring :=
  match s with
  | [] => ([], [])
  | c :: s' =>
      let (p, ps) := split_on sep s' in
      if (c =? sep)%N then ([], p :: ps) else (c :: p, ps)
  end.

(** [s.split(sep)] for a separator of one code unit; the result is never
    empty ([''.split(',')] is [['']]). *)
Definition split (sep : N) (s : jsstring) : list jsstring :=
  let (p, ps) := split_on sep s in p :: ps.

(** [xs.join(sep)] on an array of strings. *)
Fixpoint join (sep : jsstring) (xs : list jsstring) : jsstring :=
  match xs with
  | [] => []
  | [x] => x
  | x :: rest => x ++ sep ++ join sep rest
  end.

(** [Boolean(s)] on a string: the empty string is the only falsy one. *)
Definition Boolean (s : jsstring) : bool :=
  match s with
  | [] => false
  | _ :: _ => true
  end.

(** [a === b] on strings. *)
Fixpoint str_eqb (a b : jsstring) : bool :=
  match a, b with
  | [], [] => true
  | x :: a', y :: b' => (x =? y)%N && str_eqb a' b'
  | _, _ => false
  end.

End JS.

Import JS.

(** ** Data model (the interfaces of the component) *)

Module FileData.
Record t := mk {
  id : jsstring;
  name : jsstring;
  url : jsstring;
  file_path : jsstring;
  tags : list jsstring;
  notebooklm : option jsstring;
  created_time : option jsstring
}.
End FileData.

Module SubSection.
Record t := mk {
  name : jsstring;
  path : jsstring;
  files : list FileData.t
}.
End SubSection.

(** The interface [Section]; [subsections] is a [Record<string, SubSection>],
    kept as the key/value pairs in the order of the response. *)
Module CatalogSection.
Record t := mk {
  name : jsstring;
  files : list FileData.t;
  subsections : list (jsstring * SubSection.t)
}.
End CatalogSection.

(** The value of [editForm]. *)
Module EditForm.
Record t := mk {
  name : jsstring;
  tags : jsstring
}.
Definition empty : t := {| name := []; tags := [] |}.
End EditForm.

(** The [useState] cells of [DriveCatalog]. *)
Record State := mkState {
  sections : list CatalogSection.t;
  searchTerm : jsstring;
  showTags : bool;
  isLoading : bool;
  editingFile : option jsstring;
  editForm : EditForm.t
}.

Definition initial : State :=
  {| sections := []; searchTerm := []; showTags := true; isLoading := false;
     editingFile := None; editForm := EditForm.empty |}.

(** A call of a state setter; [UpdateEditForm] is the functional form
    [setEditForm(prev => ...)]. *)
Inductive Update :=
| SetSections (v : list CatalogSection.t)
| SetSearchTerm (v : jsstring)
| SetIsLoading (v : bool)
| SetEditingFile (v : option jsstring)
| SetEditForm (v : EditForm.t)
| UpdateEditForm (f : EditForm.t -> EditForm.t).

Definition apply (u : Update) (st : State) : State :=
  match u with
  | SetSections v =>
      mkState v (searchTerm st) (showTags st) (isLoading st) (editingFile st) (editForm st)
  | SetSearchTerm v =>
      mkState (sections st) v (showTags st) (isLoading st) (editingFile st) (editForm st)
  | SetIsLoading v =>
      mkState (sections st) (searchTerm st) (showTags st) v (editingFile st) (editForm st)
  | SetEditingFile v =>
      mkState (sections st) (searchTerm st) (showTags st) (isLoading st) v (editForm st)
  | SetEditForm v =>
      mkState (sections st) (searchTerm st) (showTags st) (isLoading st) (editingFile st) v
  | UpdateEditForm f =>
      mkState (sections st) (searchTerm st) (showTags st) (isLoading st) (editingFile st)
              (f (editForm st))
  end.

(** ** The network *)

Inductive Method := GET | POST | PATCH.

(** The JSON body of the PATCH request, before [JSON.stringify]. *)
Record PatchBody := mkPatchBody {
  patch_name : jsstring;
  patch_tags : list jsstring
}.

(** A [fetch] call. [path] is the URL after the configured base
    ([process.env.NEXT_PUBLIC_API_URL]). *)
Record Request := mkRequest {
  method : Method;
  path : jsstring;
  body : option PatchBody
}.

(** What [response.json()] gives: it rejects when the body is not JSON;
    the parsed value is [null], the object of the API [{ status, data }]
    (with [data] of the declared type [Section[]]), or any other value,
    whose [status] is [undefined] or not a string. *)
Inductive Json :=
| JNull
| JResult (status : jsstring) (data : list CatalogSection.t)
| JOther.

Inductive Body :=
| NotJson
| Parsed (v : Json).

Record Response := mkResponse {
  ok : bool;
  payload : Body
}.

(** The promise of [fetch] rejects (transport failure) or resolves with a
    response, whatever its HTTP status. *)
Inductive FetchReply :=
| Rejected
| Resolved (r : Response).

(** ** Asynchronous functions *)

Inductive Error := NetworkError | SyntaxError | TypeError.

Inductive Async (A : Type) : Type :=
| Ret (a : A)
| Throw (e : Error)
| SetState (u : Update) (k : Async A)
| ConsoleError (msg : string) (e : Error) (k : Async A)
| Fetch (r : Request) (k : FetchReply -> Async A).

Arguments Throw {A} e.

Fixpoint bind {A B : Type} (p : Async A) (f : A -> Async B) : Async B :=
  match p with
  | Ret a => f a
  | Throw e => Throw e
  | SetState u k => SetState u (bind k f)
  | ConsoleError m e k => ConsoleError m e (bind k f)
  | Fetch r k => Fetch r (fun reply => bind (k reply) f)
  end.

(** [try { p } catch (error) { h error }] *)
Fixpoint try_catch {A : Type} (p : Async A) (h : Error -> Async A) : Async A :=
  match p with
  | Ret a => Ret a
  | Throw e => h e
  | SetState u k => SetState u (try_catch k h)
  | ConsoleError m e k => ConsoleError m e (try_catch k h)
  | Fetch r k => Fetch r (fun reply => try_catch (k reply) h)
  end.

Declare Scope async_scope.
Delimit Scope async_scope with async.
Bind Scope async_scope with Async.
Notation "x <- p ;; q" := (bind p (fun x => q))
  (at level 61, p at next level, right associativity) : async_scope.
Notation "p ;; q" := (bind p (fun _ => q))
  (at level 61, right associativity) : async_scope.
Open Scope async_scope.

Definition set (u : Update) : Async unit := SetState u (Ret tt).
Definition console_error (msg : string) (e : Error) : Async unit :=
  ConsoleError msg e (Ret tt).

(** [await fetch(r)] *)
Definition fetch (r : Request) : Async Response :=
  Fetch r (fun reply =>
    match reply with
    | Rejected => Throw NetworkError
    | Resolved resp => Ret resp
    end).

(** [await response.json()] *)
Definition json (resp : Response) : Async Json :=
  match payload resp with
  | NotJson => Throw SyntaxError
  | Parsed v => Ret v
  end.

(** ** Running an asynchronous function to completion *)

Inductive Event :=
| Req (r : Request)
| Upd (u : Update)
| Logged (msg : string) (e : Error).

Record Outcome (A : Type) := mkOutcome {
  final : State;
  trace : list Event;
  served : nat;
  result : Error + A
}.

Definition emit {A : Type} (ev : Event) (o : Outcome A) : Outcome A :=
  mkOutcome (final o) (ev :: trace o) (served o) (result o).

(** [run p net n st]: the call [p] runs from state [st]; the [i]-th request
    of the session is answered by [net i], and [n] requests were answered
    before the call. *)
Fixpoint run {A : Type} (p : Async A) (net : nat -> FetchReply) (n : nat)
    (st : State) : Outcome A :=
  match p with
  | Ret a => mkOutcome st [] n (inr a)
  | Throw e => mkOutcome st [] n (inl e)
  | SetState u k => emit (Upd u) (run k net n (apply u st))
  | ConsoleError m e k => emit (Logged m e) (run k net n st)
  | Fetch r k => emit (Req r) (run (k (net n)) net (S n) st)
  end.

(** ** The handlers of [DriveCatalog]

    The argument [c] of a handler is the render whose closure it is: the
    handler reads [searchTerm c] and [editForm c]. *)

(** The request of [fetchData]:
    [`${API}/files${searchTerm ? `?search=${searchTerm}` : ''}`]. *)
Definition files_request (term : jsstring) : Request :=
  mkRequest GET
    (lit "/files" ++ (if Boolean term then lit "?search=" ++ term else []))
    None.

Definition fetchData (c : State) : Async unit :=
  set (SetIsLoading true) ;;
  try_catch
    (response <- fetch (files_request (searchTerm c)) ;;
     result <- json response ;;
     match result with
     | JNull => Throw TypeError
     | JResult status data =>
         if str_eqb status (lit "success") then set (SetSections data)
         else Ret tt
     | JOther => Ret tt
     end)
    (fun error => console_error "Error fetching data:" error) ;;
  set (SetIsLoading false).

Definition update_request : Request := mkRequest POST (lit "/update") None.

Definition handleRefresh (c : State) : Async unit :=
  set (SetIsLoading true) ;;
  try_catch
    (_ <- fetch update_request ;;
     fetchData c)
    (fun error => console_error "Error refreshing data:" error) ;;
  set (SetIsLoading false).

Definition startEditing (file : FileData.t) : Async unit :=
  set (SetEditingFile (Some (FileData.id file))) ;;
  set (SetEditForm
         {| EditForm.name := FileData.name file;
            EditForm.tags := join (lit ", ") (FileData.tags file) |}).

Definition cancelEditing : Async unit :=
  set (SetEditingFile None) ;;
  set (SetEditForm EditForm.empty).

(** [editForm.tags.split(',').map(tag => tag.trim()).filter(Boolean)] *)
Definition payload_tags (draft : jsstring) : list jsstring :=
  filter Boolean (map trim (split comma draft)).

Definition patch_request (c : State) (file : FileData.t) : Request :=
  mkRequest PATCH
    (lit "/files/" ++ FileData.id file)
    (Some {| patch_name := EditForm.name (editForm c);
             patch_tags := payload_tags (EditForm.tags (editForm c)) |}).

Definition saveFileChanges (c : State) (file : FileData.t) : Async unit :=
  try_catch
    (response <- fetch (patch_request c file) ;;
     if ok response then
       fetchData c ;;
       cancelEditing
     else Ret tt)
    (fun error => console_error "Error updating file:" error).

(** The condition under which [FileCard] renders the edit form of [file]:
    [editingFile === file.id]. *)
Definition editing (st : State) (file : FileData.t) : bool :=
  match editingFile st with
  | Some i => str_eqb i (FileData.id file)
  | None => false
  end.

(** ** The session: handlers interleaved at their [await]s *)

Inductive UIEvent :=
| ClickEdit (file : FileData.t)
| ClickSave (file : FileData.t)
| ClickCancel
| InputName (v : jsstring)
| InputTags (v : jsstring)
| InputSearch (v : jsstring)
| ClickRefresh.

Definition handler (c : State) (ev : UIEvent) : Async unit :=
  match ev with
  | ClickEdit file => startEditing file
  | ClickSave file => saveFileChanges c file
  | ClickCancel => cancelEditing
  | InputName v =>
      set (UpdateEditForm (fun prev =>
             {| EditForm.name := v; EditForm.tags := EditForm.tags prev |}))
  | InputTags v =>
      set (UpdateEditForm (fun prev =>
             {| EditForm.name := EditForm.name prev; EditForm.tags := v |}))
  | InputSearch v => set (SetSearchTerm v)
  | ClickRefresh => handleRefresh c
  end.

(** Runs [p] up to its first [await]: the state reached and, when [p]
    suspended, its continuation. An exception that escapes is dropped. *)
Fixpoint start (p : Async unit) (st : State)
    : State * option (FetchReply -> Async unit) :=
  match p with
  | Ret _ => (st, None)
  | Throw _ => (st, None)
  | SetState u k => start k (apply u st)
  | ConsoleError _ _ k => start k st
  | Fetch _ k => (st, Some k)
  end.

Record Session := mkSession {
  ui : State;
  suspended : list (FetchReply -> Async unit)
}.

Definition spawn (p : Async unit) (s : Session) : Session :=
  match start p (ui s) with
  | (st, Some k) => mkSession st (k :: suspended s)
  | (st, None) => mkSession st (suspended s)
  end.

Fixpoint remove_nth {A : Type} (i : nat) (l : list A) : list A :=
  match l, i with
  | [], _ => []
  | _ :: l', O => l'
  | x :: l', S i' => x :: remove_nth i' l'
  end.

(** One turn of the event loop: a user event runs its handler of the
    current render; the debounce timer runs the [fetchData] of the render
    [c] that scheduled it; a response resumes the call that awaits it. *)
Inductive turn : Session -> Session -> Prop :=
| turn_event s ev :
    turn s (spawn (handler (ui s) ev) s)
| turn_timer s c :
    turn s (spawn (fetchData c) s)
| turn_reply s i k reply :
    nth_error (suspended s) i = Some k ->
    turn s (spawn (k reply) (mkSession (ui s) (remove_nth i (suspended s)))).

Inductive reachable : Session -> Prop :=
| reachable_mount : reachable (mkSession initial [])
| reachable_turn s s' : reachable s -> turn s s' -> reachable s'.

(** ** The debounced search effect

    [debouncedFetch = _.debounce(fetchData, 300)] is called by an effect
    that depends on [searchTerm], and cancelled by the cleanup of that
    effect. Time is counted in milliseconds; [timer] is the pending
    invocation: when it is due, and the [searchTerm] of the render whose
    [fetchData] it wraps. [issued] are the requests of the invocations that
    ran, oldest first. *)

Module Debounce.


Record t := mk {
  now : nat;
  term : jsstring;
  timer : option (nat * jsstring);
  issued : list Request
}.














End Debounce.

(** ** The update payload in the words of the specification

    The tags of the payload are obtained by splitting the draft on commas,
    trimming white space from each piece, and discarding empty pieces. *)

Module Spec.

Definition all_white_space (s : jsstring) : Prop :=
  forallb is_white_space s = true.

(** [s] does not begin with white space. *)
Definition no_leading_space (s : jsstring) : Prop :=
  match s with
  | c :: _ => is_white_space c = false
  | [] => True
  end.

Definition no_trailing_space (s : jsstring) : Prop :=
  no_leading_space (rev s).

(** [pieces] are the parts of [s] between its commas. *)
Definition comma_pieces (s : jsstring) (pieces : list jsstring) : Prop :=
  pieces <> []
  /\ Forall (fun p => ~ In comma p) pieces
  /\ join [comma] pieces = s.

(** [t] is [p] without the white space at its two ends. *)
Definition trimmed (p t : jsstring) : Prop :=
  exists l r,
    p = l ++ t ++ r
    /\ all_white_space l /\ all_white_space r
    /\ no_leading_space t /\ no_trailing_space t.

Definition discard_empty (ts : list jsstring) : list jsstring :=
  filter (fun t => negb (Nat.eqb (List.length t) 0)) ts.

(** [s] is the tags [ts] written one after the other, with a comma and
    one space between two tags that follow each other (and nothing before
    the first or after the last). *)
Inductive comma_space_joined : list jsstring -> jsstring -> Prop :=
| joined_none :
    comma_space_joined [] []
| joined_last t :
    comma_space_joined [t] t
| joined_more t u ts s :
    comma_space_joined (u :: ts) s ->
    comma_space_joined (t :: u :: ts) (t ++ 44%N :: 32%N :: s).

Definition parsed_tags (draft : jsstring) (out : list jsstring) : Prop :=
  exists pieces ts,
    comma_pieces draft pieces
    /\ Forall2 trimmed pieces ts
    /\ out = discard_empty ts.

End Spec.

(** ** Vocabulary of the properties *)

(** The requests of a trace, in the order they were issued. *)
Fixpoint requests (tr : list Event) : list Request :=
  match tr with
  | [] => []
  | Req r :: tr' => r :: requests tr'
  | _ :: tr' => requests tr'
  end.

(** The event is a call of [setSections]. *)
Definition sets_sections (ev : Event) : bool :=
  match ev with
  | Upd (SetSections _) => true
  | _ => false
  end.

(** The event is a call of [setIsLoading]. *)
Definition sets_loading (ev : Event) : bool :=
  match ev with
  | Upd (SetIsLoading _) => true
  | _ => false
  end.

(** The ways a load fails, by the answer to its request: the [fetch]
    throws, [response.json()] throws, reading [status] throws, or the
    [status] read is not ['success']. *)
Inductive load_failure : FetchReply -> Prop :=
| fetch_throws :
    load_failure Rejected
| json_throws resp :
    payload resp = NotJson -> load_failure (Resolved resp)
| status_throws resp :
    payload resp = Parsed JNull -> load_failure (Resolved resp)
| status_not_success resp status data :
    payload resp = Parsed (JResult status data) ->
    status <> lit "success" ->
    load_failure (Resolved resp)
| status_absent resp :
    payload resp = Parsed JOther -> load_failure (Resolved resp).

(** The trigger of a refresh fails in the wide sense: transport error or
    a response that is not OK. *)
Inductive trigger_failure : FetchReply -> Prop :=
| trigger_throws : trigger_failure Rejected
| trigger_not_ok resp : ok resp = false -> trigger_failure (Resolved resp).

(** The patch-update fails: transport error or a response that is not OK. *)
Inductive patch_failure : FetchReply -> Prop :=
| patch_throws : patch_failure Rejected
| patch_not_ok resp : ok resp = false -> patch_failure (Resolved resp).

(** A tag that is not empty, contains no comma, and has no white space at
    either end. *)
Definition clean_tag (t : jsstring) : Prop :=
  t <> [] /\ ~ In comma t
  /\ Spec.no_leading_space t /\ Spec.no_trailing_space t.

(** The event is a call of [console.error]. *)
Definition logs (ev : Event) : bool :=
  match ev with
  | Logged _ _ => true
  | _ => false
  end.

(** The answer [reply] resumes the [i]-th suspended call of the session
    (the most recently suspended call is the first). *)
Definition resume (i : nat) (reply : FetchReply) (s : Session) : Session :=
  match nth_error (suspended s) i with
  | Some k => spawn (k reply) (mkSession (ui s) (remove_nth i (suspended s)))
  | None => s
  end.

(** What one turn may do to the snapshot: nothing, or replace it by the
    data of the answer [reply], whose status is ['success']. *)
Definition snapshot_step (reply : FetchReply) (st st' : State) : Prop :=
  sections st' = sections st
  \/ exists resp data,
       reply = Resolved resp
       /\ payload resp = Parsed (JResult (lit "success") data)
       /\ sections st' = data.

(** A suspended call at its last [await]: whatever the answer, it then
    runs to its end and leaves the loading flag cleared. *)
Definition finishing (k : FetchReply -> Async unit) : Prop :=
  forall reply st,
    exists st',
      start (k reply) st = (st', None)
      /\ isLoading st' = false
      /\ snapshot_step reply st st'.

(** A suspended call that clears the loading flag before it ends, after
    at most one more [await]. *)
Definition loading (k : FetchReply -> Async unit) : Prop :=
  forall reply st,
    match start (k reply) st with
    | (st', None) => isLoading st' = false /\ snapshot_step reply st st'
    | (st', Some k') => sections st' = sections st /\ finishing k'
    end.

(** A suspended call that ends without a change of state, or goes on to
    a last [await]. *)
Definition patching (k : FetchReply -> Async unit) : Prop :=
  forall reply st,
    match start (k reply) st with
    | (st', None) => st' = st
    | (st', Some k') => sections st' = sections st /\ finishing k'
    end.

(** The state in which a load ends when [reply] answers its request and
    the state is [st] at that time: the rest of [fetchData] after its
    first [await]. *)
Definition loaded (reply : FetchReply) (st : State) : State :=
  apply (SetIsLoading false)
    match reply with
    | Resolved resp =>
        match payload resp with
        | Parsed (JResult status data) =>
            if str_eqb status (lit "success") then apply (SetSections data) st
            else st
        | _ => st
        end
    | Rejected => st
    end.

(** Every suspended call of the session is of one of the two kinds, and
    when the loading flag is set one of them will clear it. *)
Definition tame (s : Session) : Prop :=
  Forall (fun k => loading k \/ patching k) (suspended s)
  /\ (isLoading (ui s) = true -> Exists loading (suspended s)).

(** ** Sample values *)

Module Sample.

Definition report : FileData.t :=
  FileData.mk (lit "f1") (lit "report.pdf") (lit "https://drive/f1")
    (lit "Docs/report.pdf") [lit "x"; lit "y z"] None None.

Definition notes : FileData.t :=
  FileData.mk (lit "f2") (lit "notes.txt") (lit "https://drive/f2")
    (lit "Docs/notes.txt") [] None (Some (lit "2024-01-01")).

Definition docs : CatalogSection.t :=
  CatalogSection.mk (lit "Docs") [report; notes] [].

Definition old : CatalogSection.t :=
  CatalogSection.mk (lit "Old") [notes] [].

(** A render that shows [old] while [notes] is being edited. *)
Definition shown : State :=
  mkState [old] [] true false (Some (lit "f2"))
    (EditForm.mk (lit "notes.txt") (lit "x, y ,  , z")).

Definition success : Response :=
  mkResponse true (Parsed (JResult (lit "success") [docs])).

Definition net_down : nat -> FetchReply := fun _ => Rejected.
Definition net_up : nat -> FetchReply := fun _ => Resolved success.
Definition net_refused : nat -> FetchReply :=
  fun _ => Resolved (mkResponse false NotJson).

(** The session after a click on the edit button of [notes]. *)
Definition editing_notes : Session :=
  spawn (handler initial (ClickEdit notes)) (mkSession initial []).

(** A response of the API with a status that is not ['success']. *)
Definition denied : Response :=
  mkResponse true (Parsed (JResult (lit "error") [docs])).

(** The trigger is answered with an HTTP error, the load succeeds. *)
Definition net_trigger_error : nat -> FetchReply :=
  fun i => match i with
           | O => Resolved (mkResponse false NotJson)
           | S _ => Resolved success
           end.

(** The session after a click on the refresh button. *)
Definition refreshing : Session :=
  spawn (handler initial ClickRefresh) (mkSession initial []).

(** A render with nothing being edited and an empty draft. *)
Definition idle : State :=
  mkState [old] (lit "rep") true false None EditForm.empty.



End Sample.

(** * Properties *)

(** ** String operations *)

Module JSFacts.
Import Spec.

Lemma join_cons2 (sep x y : jsstring) (l : list jsstring) :
  join sep (x :: y :: l) = x ++ sep ++ join sep (y :: l).
Proof. reflexivity. Qed.

Lemma split_unfold (sep c : N) (s : jsstring) :
  split sep (c :: s) =
    if (c =? sep)%N then [] :: split sep s
    else match split sep s with
         | p :: ps => (c :: p) :: ps
         | [] => [[c]]
         end.
Proof.
  unfold split; simpl.
  destruct (split_on sep s) as [p ps]; destruct (c =? sep)%N; reflexivity.
Qed.

Example split_empty : split comma (lit "") = [lit ""].
Proof. reflexivity. Qed.

Example split_trailing_comma :
  split comma (lit "a,b,") = [lit "a"; lit "b"; lit ""].
Proof. reflexivity. Qed.

Example trim_inner_space : trim (lit "  a b  ") = lit "a b".
Proof. reflexivity. Qed.

Example payload_tags_blank_piece :
  payload_tags (lit "a, ,b") = [lit "a"; lit "b"].
Proof. reflexivity. Qed.

Lemma split_nonempty (sep : N) (s : jsstring) : split sep s <> [].
Proof. unfold split; destruct (split_on sep s); discriminate. Qed.

(** Joining the pieces with the separator gives the string back. *)
Lemma join_split (sep : N) (s : jsstring) : join [sep] (split sep s) = s.
Proof.
  induction s as [|c s IH]; [reflexivity|].
  rewrite split_unfold.
  destruct (N.eqb_spec c sep) as [->|Hne].
  - destruct (split sep s) as [|p ps] eqn:E.
    + now apply split_nonempty in E.
    + rewrite join_cons2, IH. reflexivity.
  - destruct (split sep s) as [|p ps] eqn:E.
    + now apply split_nonempty in E.
    + destruct ps; simpl in *; now rewrite IH.
Qed.

Lemma split_sep_free (sep : N) (s : jsstring) :
  Forall (fun p => ~ In sep p) (split sep s).
Proof.
  induction s as [|c s IH].
  - repeat constructor. intros [].
  - rewrite split_unfold.
    destruct (N.eqb_spec c sep) as [->|Hne].
    + constructor; [intros []|exact IH].
    + destruct (split sep s) as [|p ps]; [repeat constructor|].
      * intros [H|[]]; congruence.
      * inversion IH; subst. constructor; [|assumption].
        intros [H|H]; [congruence|contradiction].
Qed.

Lemma split_sep_free_piece (sep : N) (p : jsstring) :
  ~ In sep p -> split sep p = [p].
Proof.
  induction p as [|c p IH]; intros H; [reflexivity|].
  rewrite split_unfold.
  destruct (N.eqb_spec c sep) as [->|Hne]; [exfalso; apply H; now left|].
  rewrite IH; [reflexivity|]. intros Hin; apply H; now right.
Qed.

Lemma split_app_sep (sep : N) (p s : jsstring) :
  ~ In sep p -> split sep (p ++ sep :: s) = p :: split sep s.
Proof.
  induction p as [|c p IH]; intros H; simpl.
  - rewrite split_unfold, N.eqb_refl. reflexivity.
  - rewrite split_unfold.
    destruct (N.eqb_spec c sep) as [->|Hne]; [exfalso; apply H; now left|].
    rewrite IH; [reflexivity|]. intros Hin; apply H; now right.
Qed.

(** The pieces between the separators are determined by the string. *)
Lemma split_join (sep : N) (ps : list jsstring) :
  ps <> [] -> Forall (fun p => ~ In sep p) ps ->
  split sep (join [sep] ps) = ps.
Proof.
  induction ps as [|p ps IH]; intros Hne Hall; [congruence|].
  inversion Hall as [|? ? Hp Hps]; subst.
  destruct ps as [|q ps].
  - simpl. now apply split_sep_free_piece.
  - rewrite join_cons2.
    change ([sep] ++ join [sep] (q :: ps)) with (sep :: join [sep] (q :: ps)).
    rewrite split_app_sep by assumption.
    rewrite IH; [reflexivity|discriminate|assumption].
Qed.

Lemma comma_pieces_split (s : jsstring) : comma_pieces s (split comma s).
Proof.
  repeat split.
  - apply split_nonempty.
  - apply split_sep_free.
  - apply join_split.
Qed.

Lemma comma_pieces_unique (s : jsstring) (ps : list jsstring) :
  comma_pieces s ps -> ps = split comma s.
Proof.
  intros (Hne & Hall & <-). symmetry. now apply split_join.
Qed.

(** *** trim *)

Lemma all_white_space_app (l r : jsstring) :
  all_white_space (l ++ r) <-> all_white_space l /\ all_white_space r.
Proof.
  unfold all_white_space. rewrite forallb_app, andb_true_iff. tauto.
Qed.

Lemma all_white_space_rev (l : jsstring) :
  all_white_space l -> all_white_space (rev l).
Proof.
  unfold all_white_space. rewrite !forallb_forall.
  intros H x Hx. apply H. now apply in_rev.
Qed.

Lemma trimStart_white (l s : jsstring) :
  all_white_space l -> trimStart (l ++ s) = trimStart s.
Proof.
  unfold all_white_space.
  induction l as [|c l IH]; simpl; intros H; [reflexivity|].
  apply andb_true_iff in H as [Hc Hl]. rewrite Hc. now apply IH.
Qed.

Lemma trimStart_fixed (s : jsstring) :
  no_leading_space s -> trimStart s = s.
Proof.
  destruct s as [|c s]; simpl; intros H; [reflexivity|]. now rewrite H.
Qed.

Lemma trimStart_all_white (l : jsstring) :
  all_white_space l -> trimStart l = [].
Proof.
  intros H. rewrite <- (app_nil_r l). now rewrite trimStart_white.
Qed.

(** What [trimStart] removes is white space, and what it leaves does not
    begin with white space. *)
Lemma trimStart_split (s : jsstring) :
  exists l, s = l ++ trimStart s /\ all_white_space l
            /\ no_leading_space (trimStart s).
Proof.
  induction s as [|c s (l & E & Hl & Hn)].
  - exists []. repeat split.
  - simpl. destruct (is_white_space c) eqn:Hc.
    + exists (c :: l). simpl. rewrite <- E. repeat split; [|assumption].
      unfold all_white_space; simpl. now rewrite Hc.
    + exists []. repeat split. exact Hc.
Qed.

Lemma trimEnd_split (s : jsstring) :
  exists r, s = trimEnd s ++ r /\ all_white_space r
            /\ no_trailing_space (trimEnd s).
Proof.
  unfold trimEnd, no_trailing_space.
  destruct (trimStart_split (rev s)) as (l & E & Hl & Hn).
  exists (rev l). rewrite rev_involutive. repeat split.
  - rewrite <- rev_app_distr, <- E. now rewrite rev_involutive.
  - now apply all_white_space_rev.
  - assumption.
Qed.

Lemma no_leading_space_prefix (t r : jsstring) :
  no_leading_space (t ++ r) -> no_leading_space t.
Proof. destruct t; simpl; auto. Qed.

Lemma trimmed_trim (p : jsstring) : trimmed p (trim p).
Proof.
  unfold trim.
  destruct (trimStart_split p) as (l & E & Hl & Hn).
  destruct (trimEnd_split (trimStart p)) as (r & E' & Hr & Hn').
  exists l, r. repeat split; try assumption.
  - now rewrite <- E', <- E.
  - apply no_leading_space_prefix with r. now rewrite <- E'.
Qed.

Lemma trim_trimmed (p t : jsstring) : trimmed p t -> trim p = t.
Proof.
  intros (l & r & -> & Hl & Hr & Hlead & Htrail).
  unfold trim. rewrite trimStart_white by assumption.
  destruct t as [|c t].
  - simpl. rewrite trimStart_all_white by assumption. reflexivity.
  - rewrite trimStart_fixed by exact Hlead.
    unfold trimEnd. rewrite rev_app_distr.
    rewrite trimStart_white by now apply all_white_space_rev.
    rewrite trimStart_fixed by exact Htrail.
    apply rev_involutive.
Qed.

Lemma Forall2_trimmed_map (ps ts : list jsstring) :
  Forall2 trimmed ps ts <-> ts = map trim ps.
Proof.
  split.
  - induction 1 as [|p t ps ts H _ IH]; [reflexivity|].
    simpl. now rewrite (trim_trimmed H), IH.
  - intros ->. induction ps; constructor; [apply trimmed_trim|assumption].
Qed.

Lemma discard_empty_filter (ts : list jsstring) :
  discard_empty ts = filter Boolean ts.
Proof.
  unfold discard_empty. apply filter_ext. now intros [|c t].
Qed.

(** The expression of the source computes the tags the specification
    describes, and they are the only ones it describes. *)
Lemma parsed_tags_payload (draft : jsstring) :
  parsed_tags draft (payload_tags draft).
Proof.
  exists (split comma draft), (map trim (split comma draft)).
  split; [apply comma_pieces_split|]. split.
  - now apply Forall2_trimmed_map.
  - symmetry. apply discard_empty_filter.
Qed.

Lemma parsed_tags_unique (draft : jsstring) (out : list jsstring) :
  parsed_tags draft out -> out = payload_tags draft.
Proof.
  intros (ps & ts & Hps & Hts & ->).
  apply comma_pieces_unique in Hps as ->.
  apply Forall2_trimmed_map in Hts as ->.
  apply discard_empty_filter.
Qed.

End JSFacts.

(** ** Running the handlers *)

Lemma str_eqb_eq (a b : jsstring) : str_eqb a b = true <-> a = b.
Proof.
  revert b; induction a as [|x a IH]; intros [|y b]; simpl;
    try (split; [discriminate|congruence]); [tauto|].
  rewrite andb_true_iff, N.eqb_eq, IH. split; [intros []|intros [=]]; now subst.
Qed.

Lemma str_eqb_refl (a : jsstring) : str_eqb a a = true.
Proof. now apply str_eqb_eq. Qed.

Lemma str_eqb_neq (a b : jsstring) : a <> b -> str_eqb a b = false.
Proof.
  intros H. destruct (str_eqb a b) eqn:E; [|reflexivity].
  now apply str_eqb_eq in E.
Qed.

(** The trace of [p] followed by [f], when [p] returns. *)
Lemma run_bind (A B : Type) (p : Async A) (f : A -> Async B)
    (net : nat -> FetchReply) (n : nat) (st : State) :
  run (bind p f) net n st =
    match result (run p net n st) with
    | inr a =>
        let o := run (f a) net (served (run p net n st)) (final (run p net n st)) in
        mkOutcome (final o) (trace (run p net n st) ++ trace o) (served o) (result o)
    | inl e =>
        mkOutcome (final (run p net n st)) (trace (run p net n st))
                  (served (run p net n st)) (inl e)
    end.
Proof.
  revert n st. induction p as [a|e|u k IH|m e k IH|r k IH]; intros n st; simpl.
  - now destruct (run (f a) net n st).
  - reflexivity.
  - rewrite IH. now destruct (result (run k net n (apply u st))).
  - rewrite IH. now destruct (result (run k net n st)).
  - rewrite IH. now destruct (result (run (k (net n)) net (S n) st)).
Qed.

(** The five ways [fetchData] can go, by the answer to its request. *)
Lemma fetchData_run (c st : State) (net : nat -> FetchReply) (n : nat) :
  run (fetchData c) net n st =
    let req := Req (files_request (searchTerm c)) in
    let log := Logged "Error fetching data:" in
    let on := Upd (SetIsLoading true) in
    let off := Upd (SetIsLoading false) in
    let idle := apply (SetIsLoading false) (apply (SetIsLoading true) st) in
    match net n with
    | Rejected =>
        mkOutcome idle [on; req; log NetworkError; off] (S n) (inr tt)
    | Resolved resp =>
        match payload resp with
        | NotJson =>
            mkOutcome idle [on; req; log SyntaxError; off] (S n) (inr tt)
        | Parsed JNull =>
            mkOutcome idle [on; req; log TypeError; off] (S n) (inr tt)
        | Parsed (JResult status data) =>
            if str_eqb status (lit "success") then
              mkOutcome
                (apply (SetIsLoading false)
                   (apply (SetSections data) (apply (SetIsLoading true) st)))
                [on; req; Upd (SetSections data); off] (S n) (inr tt)
            else mkOutcome idle [on; req; off] (S n) (inr tt)
        | Parsed JOther => mkOutcome idle [on; req; off] (S n) (inr tt)
        end
    end.
Proof.
  unfold fetchData, fetch, json; simpl.
  destruct (net n) as [|resp]; [reflexivity|].
  simpl. destruct (payload resp) as [|[|status data|]]; try reflexivity.
  simpl. destruct (str_eqb status (lit "success")); reflexivity.
Qed.

Lemma load_failure_cases (reply : FetchReply) :
  load_failure reply <->
  match reply with
  | Rejected => True
  | Resolved resp =>
      match payload resp with
      | Parsed (JResult status _) => str_eqb status (lit "success") = false
      | _ => True
      end
  end.
Proof.
  split.
  - intros [|resp H|resp H|resp status data H Hne|resp H]; try rewrite H; auto.
    now apply str_eqb_neq.
  - destruct reply as [|resp]; [constructor|].
    destruct (payload resp) as [|[|status data|]] eqn:E; intros H.
    + now apply json_throws.
    + now apply status_throws.
    + eapply status_not_success; [exact E|].
      intros ->. now rewrite str_eqb_refl in H.
    + now apply status_absent.
Qed.

(** C1. A load that fails (the fetch throws, the JSON parse throws, or
    the status of the answer is not ['success']) never calls
    [setSections]: the snapshot after the call is the snapshot before it. *)
Theorem load_failure_keeps_snapshot (c st : State) (net : nat -> FetchReply)
    (n : nat) :
  load_failure (net n) ->
  sections (final (run (fetchData c) net n st)) = sections st
  /\ existsb sets_sections (trace (run (fetchData c) net n st)) = false.
Proof.
  intros H. apply load_failure_cases in H. rewrite fetchData_run.
  destruct (net n) as [|resp]; [now split|].
  destruct (payload resp) as [|[|status data|]]; try now split.
  rewrite H. now split.
Qed.

Lemma load_failure_keeps_snapshot_witness :
  load_failure (Sample.net_down 0)
  /\ sections (final (run (fetchData Sample.shown) Sample.net_down 0 Sample.shown))
     = [Sample.old].
Proof.
  split; [constructor|].
  apply (load_failure_keeps_snapshot Sample.shown Sample.shown Sample.net_down 0).
  constructor.
Defined.

(** C6. Every load first sets the loading flag, and its last act is to
    clear it, whatever the answer: the call always returns, the flag is
    false afterwards, and the flag is not touched in between. *)
Theorem load_brackets_loading (c st : State) (net : nat -> FetchReply)
    (n : nat) :
  exists mid,
    trace (run (fetchData c) net n st)
      = Upd (SetIsLoading true) :: mid ++ [Upd (SetIsLoading false)]
    /\ existsb sets_loading mid = false
    /\ isLoading (final (run (fetchData c) net n st)) = false
    /\ result (run (fetchData c) net n st) = inr tt.
Proof.
  rewrite fetchData_run.
  destruct (net n) as [|resp].
  - eexists [_; _]. now repeat split.
  - destruct (payload resp) as [|[|status data|]].
    + eexists [_; _]. now repeat split.
    + eexists [_; _]. now repeat split.
    + destruct (str_eqb status (lit "success")).
      * eexists [_; _]. now repeat split.
      * eexists [_]. now repeat split.
    + eexists [_]. now repeat split.
Qed.

(** C7. A load whose answer has status ['success'] replaces the snapshot
    by the data of the answer, as they are: the sections shown afterwards
    are those of the answer, in their order, whatever was shown before. *)
Theorem load_success_replaces_snapshot (c st : State)
    (net : nat -> FetchReply) (n : nat) (resp : Response)
    (data : list CatalogSection.t) :
  net n = Resolved resp ->
  payload resp = Parsed (JResult (lit "success") data) ->
  sections (final (run (fetchData c) net n st)) = data.
Proof.
  intros Hnet Hbody. rewrite fetchData_run, Hnet, Hbody. reflexivity.
Qed.

Lemma load_success_replaces_snapshot_witness :
  map CatalogSection.name
    (sections (final (run (fetchData initial) Sample.net_up 0 Sample.shown)))
    = [lit "Docs"]
  /\ map CatalogSection.files
       (sections (final (run (fetchData initial) Sample.net_up 0 Sample.shown)))
     = [[Sample.report; Sample.notes]].
Proof.
  rewrite (@load_success_replaces_snapshot initial Sample.shown Sample.net_up 0
             Sample.success [Sample.docs] eq_refl eq_refl).
  split; reflexivity.
Defined.

Lemma run_try_catch (A : Type) (p : Async A) (h : Error -> Async A)
    (net : nat -> FetchReply) (n : nat) (st : State) :
  run (try_catch p h) net n st =
    match result (run p net n st) with
    | inr a => run p net n st
    | inl e =>
        let o := run (h e) net (served (run p net n st)) (final (run p net n st)) in
        mkOutcome (final o) (trace (run p net n st) ++ trace o) (served o) (result o)
    end.
Proof.
  revert n st. induction p as [a|e|u k IH|m e k IH|r k IH]; intros n st; simpl.
  - reflexivity.
  - now destruct (run (h e) net n st).
  - rewrite IH. now destruct (result (run k net n (apply u st))).
  - rewrite IH. now destruct (result (run k net n st)).
  - rewrite IH. now destruct (result (run (k (net n)) net (S n) st)).
Qed.

Lemma fetchData_returns (c st : State) (net : nat -> FetchReply) (n : nat) :
  result (run (fetchData c) net n st) = inr tt
  /\ served (run (fetchData c) net n st) = S n
  /\ requests (trace (run (fetchData c) net n st))
     = [files_request (searchTerm c)].
Proof.
  rewrite fetchData_run.
  destruct (net n) as [|resp]; [now repeat split|].
  destruct (payload resp) as [|[|status data|]]; try now repeat split.
  destruct (str_eqb status (lit "success")); now repeat split.
Qed.

Lemma requests_app (tr tr' : list Event) :
  requests (tr ++ tr') = requests tr ++ requests tr'.
Proof.
  induction tr as [|[r|u|m e] tr IH]; simpl; now rewrite ?IH.
Qed.

(** [fetchData] catches what it throws: around it a [try] is transparent,
    and what follows it always runs. *)
Lemma try_catch_fetchData (c st : State) (h : Error -> Async unit)
    (net : nat -> FetchReply) (n : nat) :
  run (try_catch (fetchData c) h) net n st = run (fetchData c) net n st.
Proof.
  rewrite run_try_catch.
  now destruct (fetchData_returns c st net n) as (-> & _).
Qed.

Lemma bind_fetchData (B : Type) (c st : State) (f : unit -> Async B)
    (net : nat -> FetchReply) (n : nat) :
  run (bind (fetchData c) f) net n st =
    let o := run (f tt) net (S n) (final (run (fetchData c) net n st)) in
    mkOutcome (final o) (trace (run (fetchData c) net n st) ++ trace o)
              (served o) (result o).
Proof.
  rewrite run_bind.
  now destruct (fetchData_returns c st net n) as (-> & -> & _).
Qed.

(** The two ways [handleRefresh] can go, by the answer to the trigger. *)
Lemma handleRefresh_run (c st : State) (net : nat -> FetchReply) (n : nat) :
  run (handleRefresh c) net n st =
    let on := Upd (SetIsLoading true) in
    let off := Upd (SetIsLoading false) in
    match net n with
    | Rejected =>
        mkOutcome (apply (SetIsLoading false) (apply (SetIsLoading true) st))
          [on; Req update_request;
           Logged "Error refreshing data:" NetworkError; off]
          (S n) (inr tt)
    | Resolved _ =>
        let o := run (fetchData c) net (S n) (apply (SetIsLoading true) st) in
        mkOutcome (apply (SetIsLoading false) (final o))
          (on :: Req update_request :: trace o ++ [off])
          (S (S n)) (inr tt)
    end.
Proof.
  unfold handleRefresh, fetch.
  remember (fetchData c) as load eqn:Eload. simpl.
  destruct (net n) as [|resp]; [reflexivity|]. simpl.
  rewrite run_bind. subst load. rewrite try_catch_fetchData.
  match goal with
  | |- context [run (fetchData c) net (S n) ?st'] =>
      destruct (fetchData_returns c st' net (S n)) as (-> & -> & _)
  end.
  reflexivity.
Qed.

(** C3, as amended. When the [fetch] of the trigger request
    [POST /update] of a refresh throws (transport failure), the refresh
    stops there: the only request of the call is the trigger, no load is
    started, and [setSections] is not called. An answer to the trigger,
    whatever its HTTP status, is not a failure to [handleRefresh]. *)
Theorem refresh_trigger_failure_aborts (c st : State)
    (net : nat -> FetchReply) (n : nat) :
  net n = Rejected ->
  requests (trace (run (handleRefresh c) net n st)) = [update_request]
  /\ ~ In (Req (files_request (searchTerm c)))
         (trace (run (handleRefresh c) net n st))
  /\ existsb sets_sections (trace (run (handleRefresh c) net n st)) = false
  /\ sections (final (run (handleRefresh c) net n st)) = sections st.
Proof.
  intros H. rewrite handleRefresh_run, H. simpl. repeat split.
  intros [E|[E|[E|[E|[]]]]]; discriminate.
Qed.

Lemma refresh_trigger_failure_aborts_witness :
  Sample.net_down 0 = Rejected
  /\ requests (trace (run (handleRefresh Sample.shown) Sample.net_down 0 Sample.shown))
     = [update_request]
  /\ sections (final (run (handleRefresh Sample.shown) Sample.net_down 0 Sample.shown))
     = [Sample.old].
Proof.
  split; [reflexivity|].
  destruct (@refresh_trigger_failure_aborts Sample.shown Sample.shown
              Sample.net_down 0 eq_refl) as (Hreq & _ & _ & Hsec).
  split; [exact Hreq|exact Hsec].
Defined.

(** C3, as stated, fails on a trigger that is answered with a response
    that is not OK: [handleRefresh] does not read the response, the load
    follows, and its data replace the snapshot. *)
Lemma refresh_trigger_failure_counterexample :
  trigger_failure (Sample.net_trigger_error 0)
  /\ requests
       (trace (run (handleRefresh Sample.idle) Sample.net_trigger_error 0
                 Sample.idle))
     = [mkRequest POST (lit "/update") None;
        mkRequest GET (lit "/files?search=rep") None]
  /\ sections Sample.idle = [Sample.old]
  /\ sections
       (final (run (handleRefresh Sample.idle) Sample.net_trigger_error 0
                 Sample.idle))
     = [Sample.docs]
  /\ sections
       (final (run (handleRefresh Sample.idle) Sample.net_trigger_error 0
                 Sample.idle))
     <> sections Sample.idle.
Proof.
  split; [now apply trigger_not_ok|].
  repeat split; try reflexivity. discriminate.
Qed.

(** A trigger that is answered, whatever the HTTP status of the answer,
    is followed by the load: [handleRefresh] does not look at the
    response. *)
Lemma refresh_reloads_after_answer (c st : State) (net : nat -> FetchReply)
    (n : nat) (resp : Response) :
  net n = Resolved resp ->
  requests (trace (run (handleRefresh c) net n st))
    = [update_request; files_request (searchTerm c)].
Proof.
  intros H. rewrite handleRefresh_run, H.
  cbv zeta. cbn [trace requests]. rewrite requests_app.
  destruct (fetchData_returns c (apply (SetIsLoading true) st) net (S n))
    as (_ & _ & ->).
  reflexivity.
Qed.

(** The three ways [saveFileChanges] can go, by the answer to the patch. *)
Lemma saveFileChanges_run (c st : State) (file : FileData.t)
    (net : nat -> FetchReply) (n : nat) :
  run (saveFileChanges c file) net n st =
    match net n with
    | Rejected =>
        mkOutcome st
          [Req (patch_request c file);
           Logged "Error updating file:" NetworkError]
          (S n) (inr tt)
    | Resolved resp =>
        if ok resp then
          let o := run (fetchData c) net (S n) st in
          mkOutcome
            (apply (SetEditForm EditForm.empty)
               (apply (SetEditingFile None) (final o)))
            (Req (patch_request c file)
               :: trace o
               ++ [Upd (SetEditingFile None); Upd (SetEditForm EditForm.empty)])
            (S (S n)) (inr tt)
        else mkOutcome st [Req (patch_request c file)] (S n) (inr tt)
    end.
Proof.
  unfold saveFileChanges, fetch.
  remember (fetchData c) as load eqn:Eload. simpl.
  destruct (net n) as [|resp]; [reflexivity|]. simpl.
  destruct (ok resp); [|reflexivity].
  subst load. rewrite run_try_catch, bind_fetchData. reflexivity.
Qed.

Lemma fetchData_keeps_edit (c st : State) (net : nat -> FetchReply) (n : nat) :
  editingFile (final (run (fetchData c) net n st)) = editingFile st
  /\ editForm (final (run (fetchData c) net n st)) = editForm st.
Proof.
  rewrite fetchData_run.
  destruct (net n) as [|resp]; [now split|].
  destruct (payload resp) as [|[|status data|]]; try now split.
  destruct (str_eqb status (lit "success")); now split.
Qed.

(** C5. A save from the edit form of [file]. When the patch is answered
    OK, the call then loads (its second and last request is that of
    [fetchData]) and, once the load is over, leaves Editing: the active
    edit is cleared. When the patch fails (the fetch throws or the answer
    is not OK), the call changes nothing: the session is still editing
    [file], with the same draft and the same snapshot, and no load ran. *)
Theorem save_resyncs_or_keeps_draft (c st : State) (file : FileData.t)
    (net : nat -> FetchReply) (n : nat) :
  editing st file = true ->
  (forall resp, net n = Resolved resp -> ok resp = true ->
     trace (run (saveFileChanges c file) net n st)
       = Req (patch_request c file)
           :: trace (run (fetchData c) net (S n) st)
           ++ [Upd (SetEditingFile None); Upd (SetEditForm EditForm.empty)]
     /\ requests (trace (run (saveFileChanges c file) net n st))
        = [patch_request c file; files_request (searchTerm c)]
     /\ editingFile (final (run (saveFileChanges c file) net n st)) = None
     /\ editing (final (run (saveFileChanges c file) net n st)) file = false)
  /\ (patch_failure (net n) ->
      final (run (saveFileChanges c file) net n st) = st
      /\ editing (final (run (saveFileChanges c file) net n st)) file = true
      /\ editForm (final (run (saveFileChanges c file) net n st)) = editForm st
      /\ sections (final (run (saveFileChanges c file) net n st)) = sections st
      /\ requests (trace (run (saveFileChanges c file) net n st))
         = [patch_request c file]).
Proof.
  intros Hedit. rewrite saveFileChanges_run. split.
  - intros resp -> ->. cbv zeta. cbn [trace final requests].
    rewrite requests_app.
    destruct (fetchData_returns c st net (S n)) as (_ & _ & ->).
    now repeat split.
  - intros [|resp Hok].
    + now repeat split.
    + rewrite Hok. now repeat split.
Qed.

Lemma save_resyncs_or_keeps_draft_witness :
  editing Sample.shown Sample.notes = true
  /\ patch_failure (Sample.net_refused 0)
  /\ final (run (saveFileChanges Sample.shown Sample.notes) Sample.net_refused 0
              Sample.shown) = Sample.shown
  /\ Sample.net_up 0 = Resolved Sample.success
  /\ editingFile (final (run (saveFileChanges Sample.shown Sample.notes)
                           Sample.net_up 0 Sample.shown)) = None.
Proof.
  destruct (@save_resyncs_or_keeps_draft Sample.shown Sample.shown Sample.notes
              Sample.net_refused 0 eq_refl) as [_ Hfail].
  destruct (@save_resyncs_or_keeps_draft Sample.shown Sample.shown Sample.notes
              Sample.net_up 0 eq_refl) as [Hok _].
  split; [reflexivity|].
  split; [now constructor|].
  split; [apply Hfail; now constructor|].
  split; [reflexivity|].
  apply (Hok Sample.success eq_refl eq_refl).
Defined.

(** C2. The first request of a save is the patch of the file, and the
    [tags] of its body are the tags the specification describes for the
    draft: the pieces of the draft between its commas, each without the
    white space at its ends, the empty ones left out. Nothing else fits
    that description; for the draft ["x, y ,  , z"] the tags are
    [["x"; "y"; "z"]]. *)
Theorem save_sends_parsed_tags (c st : State) (file : FileData.t)
    (net : nat -> FetchReply) (n : nat) :
  exists tags,
    hd_error (requests (trace (run (saveFileChanges c file) net n st)))
      = Some (mkRequest PATCH (lit "/files/" ++ FileData.id file)
                (Some (mkPatchBody (EditForm.name (editForm c)) tags)))
    /\ Spec.parsed_tags (EditForm.tags (editForm c)) tags
    /\ (forall out, Spec.parsed_tags (EditForm.tags (editForm c)) out ->
                    out = tags)
    /\ (EditForm.tags (editForm c) = lit "x, y ,  , z" ->
        tags = [lit "x"; lit "y"; lit "z"]).
Proof.
  exists (payload_tags (EditForm.tags (editForm c))).
  split; [|split; [|split]].
  - rewrite saveFileChanges_run.
    destruct (net n) as [|resp]; [reflexivity|].
    destruct (ok resp); reflexivity.
  - apply JSFacts.parsed_tags_payload.
  - apply JSFacts.parsed_tags_unique.
  - intros ->. reflexivity.
Qed.

Lemma save_sends_parsed_tags_witness :
  exists tags,
    hd_error (requests (trace (run (saveFileChanges Sample.shown Sample.notes)
                                 Sample.net_up 0 Sample.shown)))
      = Some (mkRequest PATCH (lit "/files/f2")
                (Some (mkPatchBody (lit "notes.txt") tags)))
    /\ tags = [lit "x"; lit "y"; lit "z"].
Proof.
  destruct (save_sends_parsed_tags Sample.shown Sample.shown Sample.notes
              Sample.net_up 0) as (tags & Hreq & _ & _ & Htags).
  exists tags. split; [exact Hreq|]. apply Htags. reflexivity.
Defined.

(** [join] with [", "] writes the tags with a comma and a space between
    them, and that string is determined by the tags. *)
Lemma comma_space_joined_join (ts : list jsstring) :
  Spec.comma_space_joined ts (join (lit ", ") ts).
Proof.
  induction ts as [|t ts IH]; [constructor|].
  destruct ts as [|u ts]; [constructor|].
  rewrite JSFacts.join_cons2. now apply Spec.joined_more.
Qed.

Lemma comma_space_joined_unique (ts : list jsstring) (s s' : jsstring) :
  Spec.comma_space_joined ts s -> Spec.comma_space_joined ts s' -> s = s'.
Proof.
  intros H. revert s'.
  induction H as [|t|t u ts s _ IH]; intros s' H'.
  - now inversion H'.
  - now inversion H'.
  - inversion H' as [| |? ? ? s0 H0]; subst. now rewrite (IH s0 H0).
Qed.

(** C9. Beginning an edit of [file] makes [file], and only the records
    with its id, the one being edited, and seeds the draft with the name of
    the record and with its tags joined by a comma and a space: the draft
    string is the tags in their order, with [", "] between two of them and
    nothing else, and it is the only such string; for the tags ["x"] and
    ["y z"] it is ["x, y z"], for no tag it is empty. Nothing else of the
    state changes and no request is made. *)
Theorem begin_seeds_draft (st : State) (file : FileData.t)
    (net : nat -> FetchReply) (n : nat) :
  editingFile (final (run (startEditing file) net n st))
    = Some (FileData.id file)
  /\ (forall g, editing (final (run (startEditing file) net n st)) g = true
                <-> FileData.id g = FileData.id file)
  /\ EditForm.name (editForm (final (run (startEditing file) net n st)))
     = FileData.name file
  /\ Spec.comma_space_joined (FileData.tags file)
       (EditForm.tags (editForm (final (run (startEditing file) net n st))))
  /\ (forall s, Spec.comma_space_joined (FileData.tags file) s ->
                s = EditForm.tags
                      (editForm (final (run (startEditing file) net n st))))
  /\ (FileData.tags file = [lit "x"; lit "y z"] ->
      EditForm.tags (editForm (final (run (startEditing file) net n st)))
      = lit "x, y z")
  /\ (FileData.tags file = [] ->
      EditForm.tags (editForm (final (run (startEditing file) net n st)))
      = lit "")
  /\ sections (final (run (startEditing file) net n st)) = sections st
  /\ requests (trace (run (startEditing file) net n st)) = [].
Proof.
  split; [reflexivity|]. split.
  { unfold editing; simpl. intros g. split.
    - intros H. symmetry. now apply str_eqb_eq.
    - intros ->. apply str_eqb_refl. }
  split; [reflexivity|]. split; [apply comma_space_joined_join|]. split.
  { intros s Hs. apply (comma_space_joined_unique Hs).
    apply comma_space_joined_join. }
  split; [simpl; now intros ->|]. split; [simpl; now intros ->|].
  split; reflexivity.
Qed.

Lemma begin_seeds_draft_witness :
  FileData.tags Sample.report = [lit "x"; lit "y z"]
  /\ editingFile (final (run (startEditing Sample.report) Sample.net_up 0 initial))
     = Some (lit "f1")
  /\ editForm (final (run (startEditing Sample.report) Sample.net_up 0 initial))
     = EditForm.mk (lit "report.pdf") (lit "x, y z").
Proof.
  destruct (begin_seeds_draft initial Sample.report Sample.net_up 0)
    as (Hid & _ & Hname & Hjoined & _ & Hxy & _).
  split; [reflexivity|]. split; [exact Hid|].
  specialize (Hxy eq_refl).
  destruct (editForm (final (run (startEditing Sample.report) Sample.net_up 0
                               initial))) as [nm tg].
  simpl in Hname, Hxy. now subst.
Defined.

(** ** The draft encoding of tags *)

Section TagRoundTrip.
Import Spec JSFacts.

Lemma join_cons_head (sep : jsstring) (c : N) (x : jsstring)
    (l : list jsstring) :
  join sep ((c :: x) :: l) = c :: join sep (x :: l).
Proof. destruct l; reflexivity. Qed.

(** Joining with [", "] is joining with [","] pieces that begin with a
    space, the first one apart. *)
Lemma join_comma_space (t : jsstring) (ts : list jsstring) :
  join (lit ", ") (t :: ts) = join [comma] (t :: map (cons space) ts).
Proof.
  revert t; induction ts as [|u ts IH]; intros t; [reflexivity|].
  simpl map. rewrite !join_cons2, IH, join_cons_head. reflexivity.
Qed.

Lemma trim_clean (t : jsstring) : clean_tag t -> trim t = t.
Proof.
  intros (_ & _ & Hl & Hr). apply trim_trimmed.
  exists [], []. rewrite app_nil_r. now repeat split.
Qed.

Lemma trim_space_clean (t : jsstring) : clean_tag t -> trim (space :: t) = t.
Proof.
  intros (_ & _ & Hl & Hr). apply trim_trimmed.
  exists [space], []. rewrite app_nil_r. now repeat split.
Qed.

Lemma map_trim_spaced (ts : list jsstring) :
  Forall clean_tag ts -> map trim (map (cons space) ts) = ts.
Proof.
  induction 1 as [|t ts Ht _ IH]; [reflexivity|].
  simpl. now rewrite (trim_space_clean Ht), IH.
Qed.

Lemma filter_Boolean_clean (ts : list jsstring) :
  Forall clean_tag ts -> filter Boolean ts = ts.
Proof.
  induction 1 as [|t ts (Hne & _) _ IH]; [reflexivity|].
  simpl. destruct t; [congruence|]. simpl. now rewrite IH.
Qed.

Lemma spaced_comma_free (ts : list jsstring) :
  Forall clean_tag ts ->
  Forall (fun p => ~ In comma p) (map (cons space) ts).
Proof.
  induction 1 as [|t ts (_ & Hc & _) _ IH]; constructor; [|assumption].
  intros [E|Hin]; [discriminate|contradiction].
Qed.

(** Parsing the joined tags gives the tags back. *)
Lemma payload_tags_join (ts : list jsstring) :
  Forall clean_tag ts -> payload_tags (join (lit ", ") ts) = ts.
Proof.
  intros Hall. destruct ts as [|t ts]; [reflexivity|].
  inversion Hall as [|? ? Ht Hts]; subst.
  unfold payload_tags. rewrite join_comma_space.
  rewrite split_join.
  - simpl map. rewrite (trim_clean Ht), (map_trim_spaced Hts).
    now apply filter_Boolean_clean.
  - discriminate.
  - constructor; [apply Ht|now apply spaced_comma_free].
Qed.

End TagRoundTrip.

(** C10. For a record whose tags are all non-empty, without comma and
    without white space at either end, beginning an edit and saving from
    the render that follows, the draft untouched, sends a patch whose
    [tags] are the tags of the record, in their order (and whose [name] is
    its name). *)
Theorem begin_then_save_sends_tags (st : State) (file : FileData.t)
    (net : nat -> FetchReply) (n : nat) :
  Forall clean_tag (FileData.tags file) ->
  hd_error
    (requests
       (trace
          (run (saveFileChanges (final (run (startEditing file) net n st)) file)
             net
             (served (run (startEditing file) net n st))
             (final (run (startEditing file) net n st)))))
  = Some (mkRequest PATCH (lit "/files/" ++ FileData.id file)
            (Some (mkPatchBody (FileData.name file) (FileData.tags file)))).
Proof.
  intros Hclean. rewrite saveFileChanges_run.
  assert (Hreq : patch_request (final (run (startEditing file) net n st)) file
                 = mkRequest PATCH (lit "/files/" ++ FileData.id file)
                     (Some (mkPatchBody (FileData.name file)
                              (FileData.tags file)))).
  { unfold patch_request. simpl editForm. simpl EditForm.tags.
    now rewrite payload_tags_join. }
  destruct (net _) as [|resp]; [|destruct (ok resp)];
    cbv zeta; cbn [trace requests hd_error]; now rewrite Hreq.
Qed.

Lemma begin_then_save_sends_tags_witness :
  Forall clean_tag (FileData.tags Sample.report)
  /\ hd_error
       (requests
          (trace
             (run (saveFileChanges
                     (final (run (startEditing Sample.report) Sample.net_up 0
                               initial))
                     Sample.report)
                Sample.net_up 0
                (final (run (startEditing Sample.report) Sample.net_up 0
                          initial)))))
     = Some (mkRequest PATCH (lit "/files/f1")
               (Some (mkPatchBody (lit "report.pdf") [lit "x"; lit "y z"]))).
Proof.
  assert (H : Forall clean_tag (FileData.tags Sample.report)).
  { repeat constructor; simpl;
      solve [discriminate | intros [E|[E|[E|[]]]]; discriminate
            | intros [E|[]]; discriminate]. }
  split; [exact H|].
  exact (begin_then_save_sends_tags initial Sample.report Sample.net_up 0 H).
Defined.

(** ** The edit session *)

Lemma filter_none (A : Type) (f : A -> bool) (l : list A) :
  (forall x, In x l -> f x = false) -> filter f l = [].
Proof.
  induction l as [|a l IH]; intros H; [reflexivity|].
  simpl. rewrite (H a) by now left.
  apply IH. intros x Hx. apply H. now right.
Qed.

Lemma at_most_one_editing (st : State) (files : list FileData.t) :
  NoDup (map FileData.id files) ->
  List.length (filter (editing st) files) <= 1.
Proof.
  unfold editing. destruct (editingFile st) as [i|].
  - induction files as [|f files IH]; simpl; intros Hnd; [lia|].
    inversion Hnd as [|? ? Hnotin Hnd']; subst.
    destruct (str_eqb i (FileData.id f)) eqn:E; [|now apply IH].
    apply str_eqb_eq in E. subst i.
    rewrite filter_none; [simpl; lia|]. intros g Hg.
    destruct (str_eqb (FileData.id f) (FileData.id g)) eqn:E'; [|reflexivity].
    apply str_eqb_eq in E'. exfalso. apply Hnotin. rewrite E'.
    now apply in_map.
  - intros _. induction files; simpl; [lia|assumption].
Qed.

(** C4. In every state the session can reach, among records of distinct
    ids at most one is being edited. When [b] is being edited, a click on
    the edit button of another record [a] is not rejected: it replaces the
    edit of [b] by the edit of [a], whose draft is seeded from [a], and
    there is still at most one record being edited. *)
Theorem single_active_edit (s : Session) (files : list FileData.t)
    (a b : FileData.t) :
  reachable s ->
  NoDup (map FileData.id files) ->
  List.length (filter (editing (ui s)) files) <= 1
  /\ (editing (ui s) b = true ->
      FileData.id a <> FileData.id b ->
      reachable (spawn (handler (ui s) (ClickEdit a)) s)
      /\ editing (ui (spawn (handler (ui s) (ClickEdit a)) s)) a = true
      /\ editing (ui (spawn (handler (ui s) (ClickEdit a)) s)) b = false
      /\ editForm (ui (spawn (handler (ui s) (ClickEdit a)) s))
         = EditForm.mk (FileData.name a)
             (join [comma; space] (FileData.tags a))
      /\ List.length
           (filter (editing (ui (spawn (handler (ui s) (ClickEdit a)) s))) files)
         <= 1).
Proof.
  intros Hs Hnd. split; [now apply at_most_one_editing|].
  intros Hb Hab. split; [|split; [|split; [|split]]].
  - eapply reachable_turn; [exact Hs|apply turn_event].
  - unfold editing; simpl. apply str_eqb_refl.
  - unfold editing; simpl. now apply str_eqb_neq.
  - reflexivity.
  - now apply at_most_one_editing.
Qed.

Lemma single_active_edit_witness :
  reachable Sample.editing_notes
  /\ NoDup (map FileData.id [Sample.report; Sample.notes])
  /\ editing (ui Sample.editing_notes) Sample.notes = true
  /\ FileData.id Sample.report <> FileData.id Sample.notes
  /\ editing
       (ui (spawn (handler (ui Sample.editing_notes) (ClickEdit Sample.report))
              Sample.editing_notes))
       Sample.notes = false
  /\ editing
       (ui (spawn (handler (ui Sample.editing_notes) (ClickEdit Sample.report))
              Sample.editing_notes))
       Sample.report = true.
Proof.
  assert (Hs : reachable Sample.editing_notes).
  { eapply reachable_turn; [apply reachable_mount|apply turn_event]. }
  assert (Hnd : NoDup (map FileData.id [Sample.report; Sample.notes])).
  { repeat constructor; simpl; [intros [E|[]]; discriminate|intros []]. }
  assert (Hne : FileData.id Sample.report <> FileData.id Sample.notes)
    by discriminate.
  destruct (@single_active_edit Sample.editing_notes
              [Sample.report; Sample.notes] Sample.report Sample.notes Hs Hnd)
    as [_ Hnext].
  destruct (Hnext eq_refl Hne) as (_ & Ha & Hb & _).
  repeat (split; [assumption || reflexivity|]). exact Ha.
Defined.

(** ** The debounced search *)

Module DebounceFacts.
Import Debounce.





End DebounceFacts.



(** * Further properties of the handlers *)

(** The request count of a load. *)
Lemma fetchData_requests (c st : State) (net : nat -> FetchReply) (n : nat) :
  requests (trace (run (fetchData c) net n st)) = [files_request (searchTerm c)].
Proof. apply fetchData_returns. Qed.

(** X1. No handler lets an exception escape, whatever the network answers:
    every call returns normally, after at most two requests. *)
Theorem handlers_return_normally (c st : State) (ev : UIEvent)
    (net : nat -> FetchReply) (n : nat) :
  result (run (handler c ev) net n st) = inr tt
  /\ List.length (requests (trace (run (handler c ev) net n st))) <= 2.
Proof.
  destruct ev as [file|file| | v| v| v|]; try (split; [reflexivity|simpl; lia]).
  - change (handler c (ClickSave file)) with (saveFileChanges c file).
    rewrite saveFileChanges_run.
    destruct (net n) as [|resp]; [split; [reflexivity|simpl; lia]|].
    destruct (ok resp); [|split; [reflexivity|simpl; lia]].
    cbv zeta. cbn [result trace requests]. split; [reflexivity|].
    rewrite requests_app, fetchData_requests. simpl. lia.
  - change (handler c ClickRefresh) with (handleRefresh c).
    rewrite handleRefresh_run.
    destruct (net n) as [|resp]; [split; [reflexivity|simpl; lia]|].
    cbv zeta. cbn [result trace requests]. split; [reflexivity|].
    rewrite requests_app, fetchData_requests. simpl. lia.
Qed.

(** X2. A load calls [console.error] exactly when something was thrown:
    the fetch, the JSON parse, or the read of [status] on [null]. An answer
    whose status is not ['success'] is dropped without a log. *)
Theorem load_logs_exactly_exceptions (c st : State) (net : nat -> FetchReply)
    (n : nat) :
  existsb logs (trace (run (fetchData c) net n st)) =
    match net n with
    | Rejected => true
    | Resolved resp =>
        match payload resp with
        | NotJson => true
        | Parsed JNull => true
        | Parsed (JResult _ _) => false
        | Parsed JOther => false
        end
    end.
Proof.
  rewrite fetchData_run.
  destruct (net n) as [|resp]; [reflexivity|].
  destruct (payload resp) as [|[|status data|]]; try reflexivity.
  destruct (str_eqb status (lit "success")); reflexivity.
Qed.

(** X3. A load changes nothing but the snapshot and the loading flag: the
    search text, the tag toggle, the record being edited and the draft are
    the same after it, whatever the answer. *)
Theorem load_keeps_session_fields (c st : State) (net : nat -> FetchReply)
    (n : nat) :
  searchTerm (final (run (fetchData c) net n st)) = searchTerm st
  /\ showTags (final (run (fetchData c) net n st)) = showTags st
  /\ editingFile (final (run (fetchData c) net n st)) = editingFile st
  /\ editForm (final (run (fetchData c) net n st)) = editForm st.
Proof.
  rewrite fetchData_run.
  destruct (net n) as [|resp]; [now repeat split|].
  destruct (payload resp) as [|[|status data|]]; try now repeat split.
  destruct (str_eqb status (lit "success")); now repeat split.
Qed.

(** X4. A refresh whose trigger is answered goes on to the load whatever
    the HTTP status of that answer, and the outcome is that of the load: a
    successful load replaces the snapshot, a failed one keeps it. *)
Theorem refresh_answered_trigger_reloads (c st : State)
    (net : nat -> FetchReply) (n : nat) (resp : Response) :
  net n = Resolved resp ->
  requests (trace (run (handleRefresh c) net n st))
    = [update_request; files_request (searchTerm c)]
  /\ (forall resp' data,
        net (S n) = Resolved resp' ->
        payload resp' = Parsed (JResult (lit "success") data) ->
        sections (final (run (handleRefresh c) net n st)) = data)
  /\ (load_failure (net (S n)) ->
      sections (final (run (handleRefresh c) net n st)) = sections st).
Proof.
  intros H. split; [now apply refresh_reloads_after_answer with resp|].
  rewrite handleRefresh_run, H. cbv zeta. cbn [final]. split.
  - intros resp' data Hnet Hbody. rewrite fetchData_run, Hnet, Hbody.
    reflexivity.
  - intros Hfail. apply load_failure_cases in Hfail. rewrite fetchData_run.
    destruct (net (S n)) as [|resp']; [reflexivity|].
    destruct (payload resp') as [|[|status data|]]; try reflexivity.
    now rewrite Hfail.
Qed.

Lemma refresh_answered_trigger_reloads_witness :
  Sample.net_trigger_error 0 = Resolved (mkResponse false NotJson)
  /\ requests (trace (run (handleRefresh Sample.idle) Sample.net_trigger_error 0
                        Sample.idle))
     = [update_request; files_request (lit "rep")]
  /\ sections (final (run (handleRefresh Sample.idle) Sample.net_trigger_error 0
                        Sample.idle))
     = [Sample.docs].
Proof.
  destruct (@refresh_answered_trigger_reloads Sample.idle Sample.idle
              Sample.net_trigger_error 0 (mkResponse false NotJson) eq_refl)
    as (Hreq & Hok & _).
  split; [reflexivity|]. split; [exact Hreq|].
  exact (Hok Sample.success [Sample.docs] eq_refl eq_refl).
Defined.

(** X5. A refresh sets the loading flag first and clears it last, in
    every outcome of the trigger and of the load; it returns with the flag
    cleared. *)
Theorem refresh_brackets_loading (c st : State) (net : nat -> FetchReply)
    (n : nat) :
  exists mid,
    trace (run (handleRefresh c) net n st)
      = Upd (SetIsLoading true) :: mid ++ [Upd (SetIsLoading false)]
    /\ isLoading (final (run (handleRefresh c) net n st)) = false.
Proof.
  rewrite handleRefresh_run.
  destruct (net n) as [|resp].
  - eexists [_; _]. split; reflexivity.
  - cbv zeta. eexists (_ :: _). split; reflexivity.
Qed.

(** X6. Cancelling leaves no record being edited and an empty draft,
    without a request; after an edit begun from a render with nothing
    being edited and an empty draft, it gives that state back. *)
Theorem cancel_after_begin_restores (st : State) (file : FileData.t)
    (net : nat -> FetchReply) (n : nat) :
  editingFile st = None ->
  editForm st = EditForm.empty ->
  final (run cancelEditing net n (final (run (startEditing file) net n st)))
    = st
  /\ (forall st' g, editing (final (run cancelEditing net n st')) g = false)
  /\ requests (trace (run cancelEditing net n st)) = [].
Proof.
  intros Hfile Hform. destruct st as [secs term tags loading file' form].
  simpl in Hfile, Hform. subst. now repeat split.
Qed.

Lemma cancel_after_begin_restores_witness :
  final (run cancelEditing Sample.net_up 0
           (final (run (startEditing Sample.report) Sample.net_up 0 Sample.idle)))
    = Sample.idle.
Proof.
  apply (@cancel_after_begin_restores Sample.idle Sample.report Sample.net_up 0
           eq_refl eq_refl).
Defined.

(** The two inputs of the edit form write one field of the draft each
    and nothing else: typing a name and typing tags give the same state in
    either order, the draft made of the two values, with the snapshot, the
    record being edited and the search text untouched and no request. *)
Theorem draft_inputs_commute (c st : State) (v w : jsstring)
    (net : nat -> FetchReply) (n : nat) :
  final (run (handler c (InputTags w)) net n
           (final (run (handler c (InputName v)) net n st)))
    = final (run (handler c (InputName v)) net n
               (final (run (handler c (InputTags w)) net n st)))
  /\ editForm (final (run (handler c (InputTags w)) net n
                        (final (run (handler c (InputName v)) net n st))))
     = EditForm.mk v w
  /\ sections (final (run (handler c (InputName v)) net n st)) = sections st
  /\ editingFile (final (run (handler c (InputName v)) net n st))
     = editingFile st
  /\ EditForm.tags (editForm (final (run (handler c (InputName v)) net n st)))
     = EditForm.tags (editForm st)
  /\ EditForm.name (editForm (final (run (handler c (InputTags w)) net n st)))
     = EditForm.name (editForm st)
  /\ requests (trace (run (handler c (InputName v)) net n st)) = []
  /\ requests (trace (run (handler c (InputTags w)) net n st)) = [].
Proof. now repeat split. Qed.

(** X7. The request of a load determines the search text: the empty text
    asks for [/files] without a query, and two texts that differ ask for
    different URLs. *)
Theorem files_request_injective (t1 t2 : jsstring) :
  (path (files_request t1) = lit "/files" <-> t1 = [])
  /\ (files_request t1 = files_request t2 -> t1 = t2).
Proof.
  split.
  - destruct t1; split; try reflexivity; discriminate.
  - unfold files_request. intros [= H].
    destruct t1, t2; simpl in H; try reflexivity; try discriminate.
    now injection H as -> ->.
Qed.

Lemma files_request_injective_witness :
  path (files_request []) = lit "/files"
  /\ (files_request (lit "ab") = files_request (lit "ab") -> lit "ab" = lit "ab").
Proof.
  destruct (files_request_injective (lit "ab") (lit "ab")) as [_ Hinj].
  destruct (files_request_injective [] []) as [Hempty _].
  split; [now apply Hempty|exact Hinj].
Defined.

(** * Further properties of the tag parser *)

Module TagFacts.
Import Spec JSFacts.

Lemma in_trim (c : N) (p : jsstring) : In c (trim p) -> In c p.
Proof.
  destruct (trimmed_trim p) as (l & r & E & _). intros H.
  rewrite E. apply in_or_app. right. apply in_or_app. now left.
Qed.

Lemma trim_nil_iff (p : jsstring) : trim p = [] <-> all_white_space p.
Proof.
  split.
  - intros H. destruct (trimmed_trim p) as (l & r & E & Hl & Hr & _).
    rewrite H in E. rewrite E. simpl. now apply all_white_space_app.
  - intros H. apply trim_trimmed. exists p, [].
    rewrite app_nil_r. now repeat split.
Qed.

(** Every tag that comes out of the parser is clean. *)
Lemma payload_tags_all_clean (s : jsstring) : Forall clean_tag (payload_tags s).
Proof.
  apply Forall_forall. intros t Ht.
  apply filter_In in Ht as [Ht Hne].
  apply in_map_iff in Ht as (p & <- & Hp).
  destruct (trimmed_trim p) as (l & r & _ & _ & _ & Hlead & Htrail).
  repeat split; try assumption.
  - intros E. now rewrite E in Hne.
  - intros Hin. apply in_trim in Hin.
    pose proof (split_sep_free comma s) as Hfree.
    rewrite Forall_forall in Hfree. now apply (Hfree p).
Qed.

Lemma split_app (sep : N) (s s' : jsstring) :
  split sep (s ++ sep :: s') = split sep s ++ split sep s'.
Proof.
  induction s as [|c s IH]; simpl.
  - rewrite split_unfold, N.eqb_refl. reflexivity.
  - rewrite !split_unfold, IH.
    destruct (c =? sep)%N; [reflexivity|].
    destruct (split sep s) as [|p ps] eqn:E; [now apply split_nonempty in E|].
    reflexivity.
Qed.

Lemma payload_tags_app (s s' : jsstring) :
  payload_tags (s ++ comma :: s') = payload_tags s ++ payload_tags s'.
Proof.
  unfold payload_tags. now rewrite split_app, map_app, filter_app.
Qed.

(** The code units of the pieces are those of the string, commas apart. *)
Lemma in_join (sep c : N) (ps : list jsstring) :
  In c (join [sep] ps) <-> c = sep /\ 2 <= List.length ps
                           \/ exists p, In p ps /\ In c p.
Proof.
  induction ps as [|p ps IH]; simpl.
  - split; [intros []|intros [[_ H]|(p & [] & _)]]. lia.
  - destruct ps as [|q ps].
    + split.
      * intros H. right. exists p. split; [now left|assumption].
      * intros [[_ H]|(p' & [<-|[]] & H)]; [simpl in H; lia|assumption].
    + rewrite in_app_iff. simpl app. simpl In at 2. rewrite IH. split.
      * intros [H|[H|[[H _]|(p' & Hp' & H)]]].
        -- right. exists p. split; [now left|assumption].
        -- left. split; [now symmetry|simpl; lia].
        -- left. split; [assumption|simpl; lia].
        -- right. exists p'. split; [now right|assumption].
      * intros [[H _]|(p' & [<-|Hp'] & H)].
        -- right. left. now symmetry.
        -- now left.
        -- right. right. right. exists p'. split; assumption.
Qed.

Lemma in_piece (c : N) (p s : jsstring) :
  In p (split comma s) -> In c p -> In c s.
Proof.
  intros Hp Hc. rewrite <- (join_split comma s).
  apply in_join. right. exists p. split; assumption.
Qed.

Lemma in_string_cases (c : N) (s : jsstring) :
  In c s -> c = comma \/ exists p, In p (split comma s) /\ In c p.
Proof.
  intros H. rewrite <- (join_split comma s) in H.
  apply in_join in H as [[H _]|H]; [now left|now right].
Qed.

Lemma filter_nil_iff (A : Type) (f : A -> bool) (l : list A) :
  filter f l = [] <-> forall x, In x l -> f x = false.
Proof.
  split; [|apply filter_none].
  induction l as [|a l IH]; simpl; [intros _ x []|].
  destruct (f a) eqn:E; [discriminate|].
  intros H x [<-|Hx]; [assumption|now apply IH].
Qed.

Lemma payload_tags_nil (s : jsstring) :
  payload_tags s = []
  <-> forall c, In c s -> c = comma \/ is_white_space c = true.
Proof.
  unfold payload_tags. rewrite filter_nil_iff. split.
  - intros H c Hc.
    destruct (@in_string_cases c s Hc) as [->|(p & Hp & Hcp)]; [now left|].
    right. assert (Hws : all_white_space p).
    { apply trim_nil_iff. specialize (H (trim p) (in_map trim _ _ Hp)).
      now destruct (trim p). }
    unfold all_white_space in Hws. rewrite forallb_forall in Hws.
    now apply Hws.
  - intros H t Ht. apply in_map_iff in Ht as (p & <- & Hp).
    replace (trim p) with (@nil N); [reflexivity|].
    symmetry. apply trim_nil_iff. unfold all_white_space.
    apply forallb_forall. intros c Hc.
    destruct (H c (@in_piece c p s Hp Hc)) as [->|Hws]; [|assumption].
    pose proof (split_sep_free comma s) as Hfree.
    rewrite Forall_forall in Hfree. now destruct (Hfree p Hp).
Qed.

End TagFacts.

(** X8. Whatever the draft, every tag of the update payload is non-empty,
    has no comma, and has no white space at either end. *)
Theorem payload_tags_clean (c st : State) (file : FileData.t)
    (net : nat -> FetchReply) (n : nat) :
  exists b,
    option_map body
      (hd_error (requests (trace (run (saveFileChanges c file) net n st))))
      = Some (Some b)
    /\ Forall clean_tag (patch_tags b).
Proof.
  exists (mkPatchBody (EditForm.name (editForm c))
            (payload_tags (EditForm.tags (editForm c)))).
  split; [|apply TagFacts.payload_tags_all_clean].
  rewrite saveFileChanges_run.
  destruct (net n) as [|resp]; [reflexivity|].
  destruct (ok resp); reflexivity.
Qed.

(** X9. Parsing is a normal form of the draft: the tags parsed from a
    draft, joined with [", "] as an edit begins, parse to the same tags. *)
Theorem payload_tags_normal_form (s : jsstring) :
  payload_tags (join (lit ", ") (payload_tags s)) = payload_tags s.
Proof. apply payload_tags_join, TagFacts.payload_tags_all_clean. Qed.

(** X10. A comma cuts the draft in two independent parts: the tags of
    [s,s'] are the tags of [s] followed by the tags of [s'], in order and
    with repetitions kept. *)
Theorem payload_tags_comma (s s' : jsstring) :
  payload_tags (s ++ comma :: s') = payload_tags s ++ payload_tags s'.
Proof. apply TagFacts.payload_tags_app. Qed.

(** X11. The payload has no tag exactly when the draft is made of commas
    and white space only (the empty draft included). *)
Theorem payload_tags_empty_iff (s : jsstring) :
  payload_tags s = []
  <-> forallb (fun c => (c =? comma)%N || is_white_space c) s = true.
Proof.
  rewrite TagFacts.payload_tags_nil, forallb_forall.
  split; intros H c Hc; specialize (H c Hc).
  - destruct H as [-> | ->]; [now rewrite N.eqb_refl|apply orb_true_r].
  - apply orb_true_iff in H as [H|H]; [left; now apply N.eqb_eq|now right].
Qed.

(** * Further properties of the debounced search *)

Module DebounceMore.
Import Debounce.








End DebounceMore.




(** * Further properties of the session *)

Module SessionFacts.

Lemma resume_turn (s : Session) (i : nat) (k : FetchReply -> Async unit)
    (reply : FetchReply) :
  nth_error (suspended s) i = Some k -> turn s (resume i reply s).
Proof.
  intros H. unfold resume. rewrite H. now apply turn_reply.
Qed.

Lemma loaded_clears (reply : FetchReply) (st : State) :
  isLoading (loaded reply st) = false.
Proof. reflexivity. Qed.

Lemma loaded_step (reply : FetchReply) (st : State) :
  snapshot_step reply st (loaded reply st).
Proof.
  unfold loaded, snapshot_step.
  destruct reply as [|resp]; [now left|].
  destruct (payload resp) as [|[|status data|]] eqn:E; try now left.
  destruct (str_eqb status (lit "success")) eqn:Es; [|now left].
  apply str_eqb_eq in Es. subst status.
  right. now exists resp, data.
Qed.

(** [fetchData] up to its [await], and after it. *)
Lemma start_fetchData (c st : State) :
  exists k,
    start (fetchData c) st = (apply (SetIsLoading true) st, Some k)
    /\ forall reply st', start (k reply) st' = (loaded reply st', None).
Proof.
  unfold fetchData, fetch. simpl. eexists. split; [reflexivity|].
  intros [|resp] st'; simpl; [reflexivity|].
  unfold json, loaded.
  destruct (payload resp) as [|[|status data|]]; simpl; try reflexivity.
  destruct (str_eqb status (lit "success")); reflexivity.
Qed.

(** [handleRefresh] up to its first [await], up to its second, and after
    it. *)
Lemma start_handleRefresh (c st : State) :
  exists k,
    start (handleRefresh c) st = (apply (SetIsLoading true) st, Some k)
    /\ (forall st',
          start (k Rejected) st' = (apply (SetIsLoading false) st', None))
    /\ (forall resp st',
          exists k',
            start (k (Resolved resp)) st'
              = (apply (SetIsLoading true) st', Some k')
            /\ forall reply st'',
                 start (k' reply) st''
                   = (apply (SetIsLoading false) (loaded reply st''), None)).
Proof.
  unfold handleRefresh, fetchData, fetch. simpl.
  eexists. split; [reflexivity|]. split.
  - intros st'. reflexivity.
  - intros resp st'. simpl. eexists. split; [reflexivity|].
    intros [|resp'] st''; simpl; [reflexivity|].
    unfold json, loaded.
    destruct (payload resp') as [|[|status data|]]; simpl; try reflexivity.
    destruct (str_eqb status (lit "success")); reflexivity.
Qed.

(** [saveFileChanges] up to its first [await], up to its second, and
    after it. *)
Lemma start_saveFileChanges (c st : State) (file : FileData.t) :
  exists k,
    start (saveFileChanges c file) st = (st, Some k)
    /\ (forall st', start (k Rejected) st' = (st', None))
    /\ (forall resp st',
          ok resp = false -> start (k (Resolved resp)) st' = (st', None))
    /\ (forall resp st',
          ok resp = true ->
          exists k',
            start (k (Resolved resp)) st'
              = (apply (SetIsLoading true) st', Some k')
            /\ forall reply st'',
                 start (k' reply) st''
                   = (apply (SetEditForm EditForm.empty)
                        (apply (SetEditingFile None) (loaded reply st'')),
                      None)).
Proof.
  unfold saveFileChanges, fetchData, fetch. simpl.
  eexists. split; [reflexivity|]. split; [|split].
  - intros st'. reflexivity.
  - intros resp st' Hok. simpl. rewrite Hok. reflexivity.
  - intros resp st' Hok. simpl. rewrite Hok. simpl.
    eexists. split; [reflexivity|].
    intros [|resp'] st''; simpl; [reflexivity|].
    unfold json, loaded.
    destruct (payload resp') as [|[|status data|]]; simpl; try reflexivity.
    destruct (str_eqb status (lit "success")); reflexivity.
Qed.

Lemma spawn_suspends (p : Async unit) (s : Session) (st : State)
    (k : FetchReply -> Async unit) :
  start p (ui s) = (st, Some k) -> spawn p s = mkSession st (k :: suspended s).
Proof. unfold spawn. now intros ->. Qed.

Lemma spawn_ends (p : Async unit) (s : Session) (st : State) :
  start p (ui s) = (st, None) -> spawn p s = mkSession st (suspended s).
Proof. unfold spawn. now intros ->. Qed.

Lemma loaded_success (resp : Response) (data : list CatalogSection.t)
    (st : State) :
  payload resp = Parsed (JResult (lit "success") data) ->
  sections (loaded (Resolved resp) st) = data.
Proof. unfold loaded. now intros ->. Qed.

(** Two loads started one after the other, both still waiting. *)
Lemma spawn_two_loads (c1 c2 : State) (s : Session) :
  exists k1 k2,
    spawn (fetchData c2) (spawn (fetchData c1) s)
      = mkSession (apply (SetIsLoading true) (apply (SetIsLoading true) (ui s)))
          (k2 :: k1 :: suspended s)
    /\ (forall reply st, start (k1 reply) st = (loaded reply st, None))
    /\ (forall reply st, start (k2 reply) st = (loaded reply st, None)).
Proof.
  destruct (start_fetchData c1 (ui s)) as (k1 & E1 & R1).
  rewrite (@spawn_suspends _ _ _ _ E1).
  destruct (start_fetchData c2 (apply (SetIsLoading true) (ui s)))
    as (k2 & E2 & R2).
  exists k1, k2. split; [|split; assumption].
  now rewrite (@spawn_suspends _ (mkSession _ _) _ _ E2).
Qed.

End SessionFacts.

(** X14. Two loads that overlap: the snapshot shown in the end is the
    data of the answer that arrived last, whichever request was issued
    last. *)
Theorem overlapping_loads_last_answer_wins (s : Session) (c1 c2 : State)
    (r1 r2 : Response) (d1 d2 : list CatalogSection.t) :
  payload r1 = Parsed (JResult (lit "success") d1) ->
  payload r2 = Parsed (JResult (lit "success") d2) ->
  sections
    (ui (resume 0 (Resolved r2)
           (resume 1 (Resolved r1)
              (spawn (fetchData c2) (spawn (fetchData c1) s))))) = d2
  /\ sections
       (ui (resume 0 (Resolved r1)
              (resume 0 (Resolved r2)
                 (spawn (fetchData c2) (spawn (fetchData c1) s))))) = d1.
Proof.
  intros H1 H2.
  destruct (SessionFacts.spawn_two_loads c1 c2 s) as (k1 & k2 & -> & R1 & R2).
  unfold resume. simpl.
  rewrite (@SessionFacts.spawn_ends _ (mkSession _ _) _ (R1 _ _)). simpl.
  rewrite (@SessionFacts.spawn_ends _ (mkSession _ _) _ (R2 _ _)). simpl.
  rewrite (@SessionFacts.spawn_ends _ (mkSession _ _) _ (R2 _ _)). simpl.
  rewrite (@SessionFacts.spawn_ends _ (mkSession _ _) _ (R1 _ _)). simpl.
  split; now apply SessionFacts.loaded_success.
Qed.

Lemma overlapping_loads_last_answer_wins_witness :
  sections
    (ui (resume 0 (Resolved Sample.success)
           (resume 0 (Resolved (mkResponse true (Parsed (JResult (lit "success") [Sample.old]))))
              (spawn (fetchData initial) (spawn (fetchData Sample.idle)
                                            (mkSession initial []))))))
  = [Sample.docs].
Proof.
  apply (@overlapping_loads_last_answer_wins (mkSession initial [])
           Sample.idle initial Sample.success
           (mkResponse true (Parsed (JResult (lit "success") [Sample.old])))
           [Sample.docs] [Sample.old] eq_refl eq_refl).
Defined.

(** X15. The loading flag is shared: when a load started during a refresh
    gets its answer, it clears the flag although the refresh is still
    waiting for the answer to its trigger. *)
Theorem loading_cleared_while_refresh_pending (s : Session) (c1 c2 : State)
    (reply : FetchReply) :
  isLoading (ui (spawn (fetchData c2) (spawn (handleRefresh c1) s))) = true
  /\ isLoading
       (ui (resume 0 reply (spawn (fetchData c2) (spawn (handleRefresh c1) s))))
     = false
  /\ List.length
       (suspended
          (resume 0 reply (spawn (fetchData c2) (spawn (handleRefresh c1) s))))
     = S (List.length (suspended s)).
Proof.
  destruct (SessionFacts.start_handleRefresh c1 (ui s)) as (k1 & E1 & _).
  rewrite (@SessionFacts.spawn_suspends _ _ _ _ E1).
  destruct (SessionFacts.start_fetchData c2 (apply (SetIsLoading true) (ui s)))
    as (k2 & E2 & R2).
  rewrite (@SessionFacts.spawn_suspends _ (mkSession _ _) _ _ E2).
  unfold resume. simpl.
  rewrite (@SessionFacts.spawn_ends _ (mkSession _ _) _ (R2 _ _)).
  now repeat split.
Qed.

(** X16. A save that succeeds clears the edit that is active when it
    ends, not the one it was started from: an edit of [a] begun while the
    save of [b] is waiting for its answer is discarded, with its draft,
    when the save completes. *)
Theorem save_completion_discards_later_edit (s : Session) (a b : FileData.t)
    (resp : Response) (reply : FetchReply) :
  ok resp = true ->
  editing
    (ui (spawn (startEditing a) (spawn (saveFileChanges (ui s) b) s))) a = true
  /\ editingFile
       (ui (resume 0 reply
              (resume 0 (Resolved resp)
                 (spawn (startEditing a) (spawn (saveFileChanges (ui s) b) s)))))
     = None
  /\ editForm
       (ui (resume 0 reply
              (resume 0 (Resolved resp)
                 (spawn (startEditing a) (spawn (saveFileChanges (ui s) b) s)))))
     = EditForm.empty
  /\ suspended
       (resume 0 reply
          (resume 0 (Resolved resp)
             (spawn (startEditing a) (spawn (saveFileChanges (ui s) b) s))))
     = suspended s.
Proof.
  intros Hok.
  destruct (SessionFacts.start_saveFileChanges (ui s) (ui s) b)
    as (k & E & _ & _ & Hgo).
  rewrite (@SessionFacts.spawn_suspends _ _ _ _ E).
  split; [unfold editing; simpl; apply str_eqb_refl|].
  unfold spawn at 1 2 3. simpl start. cbv iota beta.
  unfold resume. simpl nth_error. cbv iota beta. simpl remove_nth. simpl ui.
  match goal with
  | |- context [k (Resolved resp)] =>
      match goal with
      | |- context [spawn (k (Resolved resp)) (mkSession ?st ?l)] =>
          destruct (Hgo resp st Hok) as (k' & E' & R');
          rewrite (@SessionFacts.spawn_suspends _ (mkSession st l) _ _ E')
      end
  end.
  simpl.
  rewrite (@SessionFacts.spawn_ends _ (mkSession _ _) _ (R' _ _)).
  now repeat split.
Qed.

Lemma save_completion_discards_later_edit_witness :
  ok Sample.success = true
  /\ editing
       (ui (spawn (startEditing Sample.report)
              (spawn (saveFileChanges (ui Sample.editing_notes) Sample.notes)
                 Sample.editing_notes)))
       Sample.report = true
  /\ editingFile
       (ui (resume 0 Rejected
              (resume 0 (Resolved Sample.success)
                 (spawn (startEditing Sample.report)
                    (spawn (saveFileChanges (ui Sample.editing_notes) Sample.notes)
                       Sample.editing_notes)))))
     = None.
Proof.
  destruct (@save_completion_discards_later_edit Sample.editing_notes
              Sample.report Sample.notes Sample.success Rejected eq_refl)
    as (Hedit & Hnone & _).
  split; [reflexivity|]. split; assumption.
Defined.

(** ** What holds in every state the session can reach *)

Module Reach.
Import SessionFacts.

Lemma Forall_remove_nth (A : Type) (P : A -> Prop) (i : nat) (l : list A) :
  Forall P l -> Forall P (remove_nth i l).
Proof.
  intros H. revert i. induction H as [|x l Hx Hl IH]; intros [|i]; simpl;
    try constructor; auto.
Qed.

Lemma Exists_remove_nth (A : Type) (P : A -> Prop) (i : nat) (l : list A)
    (x : A) :
  nth_error l i = Some x -> Exists P l -> P x \/ Exists P (remove_nth i l).
Proof.
  revert i. induction l as [|y l IH]; intros [|i] Hnth Hex; simpl in *;
    try discriminate.
  - injection Hnth as ->. inversion Hex; subst; auto.
  - inversion Hex as [? ? Hy|? ? Hl]; subst.
    + right. now left.
    + destruct (IH i Hnth Hl) as [Hx|Hr]; [now left|right; now right].
Qed.

Lemma snapshot_step_same (reply : FetchReply) (st st' st'' : State) :
  sections st'' = sections st' -> snapshot_step reply st st' ->
  snapshot_step reply st st''.
Proof.
  intros E [H|(resp & data & Hr & Hp & H)]; [left|right; exists resp, data];
    rewrite E; auto.
Qed.

Lemma finishing_loading (k : FetchReply -> Async unit) :
  finishing k -> loading k.
Proof.
  intros H reply st. destruct (H reply st) as (st' & -> & Hl & Hs). now split.
Qed.

Lemma fetchData_suspends (c st : State) :
  exists k,
    start (fetchData c) st = (apply (SetIsLoading true) st, Some k)
    /\ finishing k.
Proof.
  destruct (start_fetchData c st) as (k & E & R). exists k. split; [exact E|].
  intros reply st'. exists (loaded reply st'). split; [apply R|].
  split; [reflexivity|apply loaded_step].
Qed.

Lemma handleRefresh_suspends (c st : State) :
  exists k,
    start (handleRefresh c) st = (apply (SetIsLoading true) st, Some k)
    /\ loading k.
Proof.
  destruct (start_handleRefresh c st) as (k & E & Hstop & Hgo).
  exists k. split; [exact E|].
  intros [|resp] st'.
  - rewrite Hstop. split; [reflexivity|now left].
  - destruct (Hgo resp st') as (k' & -> & R). split; [reflexivity|].
    intros reply st''. eexists. split; [apply R|]. split; [reflexivity|].
    apply snapshot_step_same with (loaded reply st''); [reflexivity|].
    apply loaded_step.
Qed.

Lemma saveFileChanges_suspends (c st : State) (file : FileData.t) :
  exists k, start (saveFileChanges c file) st = (st, Some k) /\ patching k.
Proof.
  destruct (start_saveFileChanges c st file) as (k & E & Hstop & Hno & Hgo).
  exists k. split; [exact E|].
  intros [|resp] st'.
  - now rewrite Hstop.
  - destruct (ok resp) eqn:Hok.
    + destruct (Hgo resp st' Hok) as (k' & -> & R). split; [reflexivity|].
      intros reply st''. eexists. split; [apply R|]. split; [reflexivity|].
      apply snapshot_step_same with (loaded reply st''); [reflexivity|].
      apply loaded_step.
    + now rewrite (Hno resp st' Hok).
Qed.

(** A call that suspends at once joins the suspended calls. *)
Lemma tame_suspends (p : Async unit) (s : Session) (st : State)
    (k : FetchReply -> Async unit) :
  tame s -> start p (ui s) = (st, Some k) ->
  loading k \/ patching k /\ isLoading st = isLoading (ui s) ->
  tame (spawn p s).
Proof.
  intros (Hall & Hflag) E Hk. rewrite (@spawn_suspends _ _ _ _ E).
  split; simpl.
  - constructor; [tauto|exact Hall].
  - intros Hl. destruct Hk as [Hk|(_ & Hsame)]; [now left|].
    right. apply Hflag. now rewrite <- Hsame.
Qed.

(** A call that ends at once leaves the suspended calls as they are. *)
Lemma tame_ends (p : Async unit) (s : Session) (st : State) :
  tame s -> start p (ui s) = (st, None) -> isLoading st = isLoading (ui s) ->
  tame (spawn p s).
Proof.
  intros (Hall & Hflag) E Hsame. rewrite (@spawn_ends _ _ _ E).
  split; simpl; [exact Hall|]. intros Hl. apply Hflag. now rewrite <- Hsame.
Qed.

Lemma tame_event (s : Session) (ev : UIEvent) :
  tame s -> tame (spawn (handler (ui s) ev) s).
Proof.
  intros Hs. destruct ev as [file|file| | v| v| v|];
    try (eapply tame_ends; [exact Hs|reflexivity|reflexivity]).
  - destruct (saveFileChanges_suspends (ui s) (ui s) file) as (k & E & Hk).
    eapply tame_suspends; [exact Hs|exact E|]. right. now split.
  - destruct (handleRefresh_suspends (ui s) (ui s)) as (k & E & Hk).
    eapply tame_suspends; [exact Hs|exact E|]. now left.
Qed.

Lemma tame_timer (s : Session) (c : State) :
  tame s -> tame (spawn (fetchData c) s).
Proof.
  intros Hs. destruct (fetchData_suspends c (ui s)) as (k & E & Hk).
  eapply tame_suspends; [exact Hs|exact E|]. left. now apply finishing_loading.
Qed.

Lemma tame_reply (s : Session) (i : nat) (k : FetchReply -> Async unit)
    (reply : FetchReply) :
  tame s -> nth_error (suspended s) i = Some k ->
  tame (spawn (k reply) (mkSession (ui s) (remove_nth i (suspended s)))).
Proof.
  intros (Hall & Hflag) Hnth.
  assert (Hk : loading k \/ patching k).
  { rewrite Forall_forall in Hall. apply Hall. eapply nth_error_In, Hnth. }
  assert (Hrest : Forall (fun k => loading k \/ patching k)
                    (remove_nth i (suspended s)))
    by now apply Forall_remove_nth.
  unfold spawn. simpl ui. simpl suspended.
  destruct (start (k reply) (ui s)) as [st' [k'|]] eqn:E.
  - assert (Hk' : finishing k').
    { destruct Hk as [Hk|Hk]; specialize (Hk reply (ui s));
        rewrite E in Hk; apply Hk. }
    split; simpl.
    + constructor; [left; now apply finishing_loading|exact Hrest].
    + intros _. left. now apply finishing_loading.
  - split; simpl; [exact Hrest|]. intros Hl.
    destruct Hk as [Hk|Hk]; specialize (Hk reply (ui s)); rewrite E in Hk.
    + destruct Hk as [Hoff _]. congruence.
    + subst st'.
      destruct (Exists_remove_nth (P := loading) _ Hnth (Hflag Hl))
        as [Hload|Hex]; [|exact Hex].
      specialize (Hload reply (ui s)). rewrite E in Hload.
      destruct Hload as [Hoff _]. congruence.
Qed.

Lemma reachable_tame (s : Session) : reachable s -> tame s.
Proof.
  induction 1 as [|s s' _ IH Hturn].
  - split; simpl; [constructor|discriminate].
  - destruct Hturn as [s ev|s c|s i k reply Hnth].
    + now apply tame_event.
    + now apply tame_timer.
    + now apply tame_reply.
Qed.

(** What a resumed call does to the snapshot. *)
Lemma tame_resume_step (s : Session) (i : nat) (reply : FetchReply) :
  tame s -> snapshot_step reply (ui s) (ui (resume i reply s)).
Proof.
  intros (Hall & _). unfold resume.
  destruct (nth_error (suspended s) i) as [k|] eqn:Hnth; [|now left].
  assert (Hk : loading k \/ patching k).
  { rewrite Forall_forall in Hall. apply Hall. eapply nth_error_In, Hnth. }
  unfold spawn. simpl ui.
  destruct Hk as [Hk|Hk]; specialize (Hk reply (ui s));
    destruct (start (k reply) (ui s)) as [st' [k'|]]; simpl.
  - left. apply Hk.
  - apply Hk.
  - left. apply Hk.
  - left. now subst.
Qed.

Lemma event_keeps_snapshot (s : Session) (ev : UIEvent) :
  sections (ui (spawn (handler (ui s) ev) s)) = sections (ui s).
Proof.
  destruct ev; reflexivity.
Qed.

Lemma timer_keeps_snapshot (s : Session) (c : State) :
  sections (ui (spawn (fetchData c) s)) = sections (ui s).
Proof.
  destruct (start_fetchData c (ui s)) as (k & E & _).
  now rewrite (@spawn_suspends _ _ _ _ E).
Qed.

End Reach.

(** X17. In every state the session can reach, a set loading flag means a
    request is in flight: when no call is waiting for an answer, the flag
    is cleared. *)
Theorem loading_implies_request_in_flight (s : Session) :
  reachable s -> isLoading (ui s) = true -> suspended s <> [].
Proof.
  intros Hs Hl. destruct (Reach.reachable_tame Hs) as (_ & Hflag).
  intros E. specialize (Hflag Hl). rewrite E in Hflag. inversion Hflag.
Qed.

Lemma loading_implies_request_in_flight_witness :
  reachable Sample.refreshing
  /\ isLoading (ui Sample.refreshing) = true
  /\ suspended Sample.refreshing <> [].
Proof.
  assert (Hs : reachable Sample.refreshing).
  { eapply reachable_turn; [apply reachable_mount|apply turn_event]. }
  split; [exact Hs|]. split; [reflexivity|].
  apply (@loading_implies_request_in_flight Sample.refreshing Hs eq_refl).
Defined.

(** X18. In every state the session can reach, no turn of the event loop
    patches the snapshot: a user event and the debounce timer leave it as
    it is, and the answer that resumes a suspended call leaves it as it is
    or, when its status is ['success'], replaces it by its data. *)
Theorem snapshot_changes_only_on_success (s : Session) :
  reachable s ->
  (forall ev, sections (ui (spawn (handler (ui s) ev) s)) = sections (ui s))
  /\ (forall c, sections (ui (spawn (fetchData c) s)) = sections (ui s))
  /\ (forall i reply, snapshot_step reply (ui s) (ui (resume i reply s))).
Proof.
  intros Hs. split; [|split].
  - intros ev. apply Reach.event_keeps_snapshot.
  - intros c. apply Reach.timer_keeps_snapshot.
  - intros i reply. now apply Reach.tame_resume_step, Reach.reachable_tame.
Qed.

Lemma snapshot_changes_only_on_success_witness :
  reachable Sample.refreshing
  /\ snapshot_step (Resolved Sample.denied) (ui Sample.refreshing)
       (ui (resume 0 (Resolved Sample.denied) Sample.refreshing)).
Proof.
  assert (Hs : reachable Sample.refreshing).
  { eapply reachable_turn; [apply reachable_mount|apply turn_event]. }
  split; [exact Hs|].
  apply (@snapshot_changes_only_on_success Sample.refreshing Hs).
Defined.
